(** * AWS_translator: the translation pipeline of [translate.py]

    A shallow embedding of the [Translator] class: the shared translation
    cache, the remote call with its [try]/[except], the thread-pool
    dispatcher, the per-sheet processor and the workbook orchestrator,
    followed by the properties of the specification that concern them.

    Conventions of the embedding.
    - A Python [str] is a [string] holding its UTF-8 encoding.  A code point
      is below 128 exactly when it is encoded as a single byte below 128, so
      [str.isascii] is "every byte is below 128".
    - The translator object and the outside world it acts on (file system,
      logger, translation service) form one [state]; a method is a function
      in the state-and-exception monad [M].
    - The translation service is a function of the request.  The order in
      which the thread pool runs its tasks is a [scheduler], any
      permutation of the submitted items.  Each task is taken as one atomic
      step: a task only touches its own cache key, so finer interleavings
      differ in the order of the log records only.
    - [multiprocessing.Pool.starmap] is modelled by running the sheets one
      after the other, in task order, on the shared (manager) cache; how
      the method and its arguments travel to the worker processes is not
      modelled.
    - The file system is a flat map from paths to files.  Under an output
      path it holds the frames handed to the writer; failures of the
      writer are not modelled. *)

From stdpp Require Import gmap strings list fin_maps pretty.

Open Scope string_scope.
Open Scope list_scope.

(** ** Python values *)

(** [str.isascii()]: true for the empty string and when every character is
    ASCII. *)
Fixpoint isascii (s : string) : bool :=
  match s with
  | EmptyString => true
  | String a s' => (Ascii.N_of_ascii a <? 128)%N && isascii s'
  end.

(** A cell of a DataFrame: text, a number, or a missing value [NA].  [NA]
    stands for the float NaN of an empty cell and for Python's [None]
    alike: [pandas.isna] holds of both, and pandas turns [None] into NaN
    or keeps it according to the type it infers for the column, so the
    embedding does not tell them apart. *)
Inductive cell :=
  | Str (s : string)
  | Num (n : Z)
  | NA.

Global Instance cell_eq_dec : EqDecision cell.
Proof. solve_decision. Defined.

(** [pandas.isna] on a scalar. *)
Definition isna (x : cell) : bool :=
  match x with
  | NA => true
  | _ => false
  end.

(** A 2-D block of values, row by row. *)
Abbreviation grid A := (list (list A)).

(** A sheet: its column headers, which are strings (the code calls
    [header.isascii()] on each), and its rows of values. *)
Record DataFrame := mkDataFrame {
  columns : list string;
  values : grid cell
}.

Global Instance DataFrame_eq_dec : EqDecision DataFrame.
Proof. solve_decision. Defined.

(** [DataFrame.map(f)], element-wise. *)
Definition grid_map {A B} (f : A → B) (d : grid A) : grid B :=
  fmap (M:=list) (fmap (M:=list) f) d.

(** [DataFrame.map(f, na_action='ignore')]: missing values are passed
    through without calling [f]. *)
Definition grid_map_ignore_na (f : cell → cell) (d : grid cell) : grid cell :=
  grid_map (λ x, if isna x then x else f x) d.

(** [df[mask]], that is [df.where(mask)]: keep the value where the mask is
    true, a missing value elsewhere. *)
Definition grid_where (d : grid cell) (mask : grid bool) : grid cell :=
  zip_with (zip_with (λ x (b : bool), if b then x else NA)) d mask.

(** [df.mask(mask, other)]: take the value of [other] where the mask is
    true, keep the value of [df] elsewhere. *)
Definition grid_mask (d : grid cell) (mask : grid bool) (other : grid cell)
  : grid cell :=
  zip_with (λ row bo, zip_with (λ x (p : bool * cell), if p.1 then p.2 else x) row bo)
           d (zip_with zip mask other).

(** [DataFrame.stack()]: the values in row-major order, missing ones
    dropped (the default [dropna=True]). *)
Definition stack (d : grid cell) : list cell :=
  filter (λ x, isna x = false) (concat d).

(** The strings among a list of values.  On [df[mask].stack()] every value
    is a string (lemma [stack_where_flagged] below), so nothing is lost. *)
Definition strs (l : list cell) : list string :=
  omap (λ x, match x with Str s => Some s | _ => None end) l.

(** A Python [dict] with string keys whose order matters (the loaded
    workbook, the assembled results): an association list in insertion
    order. *)
Abbreviation odict V := (list (string * V)).

(** [d[k] = v] on an insertion-ordered dict: an existing key keeps its
    position and takes the new value, a new key goes to the end. *)
Definition odict_setitem {V} (k : string) (v : V) (d : odict V) : odict V :=
  if decide (k ∈ d.*1)
  then fmap (λ kv, if decide (kv.1 = k) then (kv.1, v) else kv) d
  else d ++ [(k, v)].

(** [{key: value for key, value in pairs}]. *)
Definition odict_of_pairs {V} (pairs : list (string * V)) : odict V :=
  foldl (λ d kv, odict_setitem kv.1 kv.2 d) [] pairs.

Abbreviation workbook := (list (string * DataFrame)).

(** ** The world *)

(** What a path of the file system holds: a spreadsheet workbook, given by
    the frames [read_excel] returns for it (for an output path: the frames
    handed to the writer), or anything else (a directory, a file that is
    not a workbook). *)
Inductive file :=
  | Workbook (wb : workbook)
  | Other.

Inductive exn :=
  | FileNotFoundError (msg : string)
  | AttributeError (msg : string)
  | KeyError (key : string)
  | ClientError (msg : string)
  | ReadError (path : string).

(** [str(e)], as interpolated by [f'{e}']. *)
Definition exn_str (e : exn) : string :=
  match e with
  | FileNotFoundError msg => msg
  | AttributeError msg => msg
  | KeyError key => "'" +:+ key +:+ "'"
  | ClientError msg => msg
  | ReadError path => path
  end.

Inductive level := INFO | WARNING | ERROR.

Global Instance level_eq_dec : EqDecision level.
Proof. solve_decision. Defined.

(** The translator object ([_file_path], [cache], [src_lang], [trgt_lang])
    together with the world: the file system, the records handed to the
    logger, and the texts sent to the translation service, oldest first. *)
Record state := mkState {
  _file_path : option string;
  cache : gmap string string;
  src_lang : string;
  trgt_lang : string;
  fs : gmap string file;
  log : list (level * string);
  calls : list string
}.

Definition set_file_path (p : string) (st : state) : state :=
  mkState (Some p) (cache st) (src_lang st) (trgt_lang st) (fs st) (log st) (calls st).
Definition set_cache (c : gmap string string) (st : state) : state :=
  mkState (_file_path st) c (src_lang st) (trgt_lang st) (fs st) (log st) (calls st).
Definition set_langs (src trgt : string) (st : state) : state :=
  mkState (_file_path st) (cache st) src trgt (fs st) (log st) (calls st).
Definition set_fs (f : gmap string file) (st : state) : state :=
  mkState (_file_path st) (cache st) (src_lang st) (trgt_lang st) f (log st) (calls st).
Definition add_log (r : level * string) (st : state) : state :=
  mkState (_file_path st) (cache st) (src_lang st) (trgt_lang st) (fs st) (log st ++ [r]) (calls st).
Definition add_call (item : string) (st : state) : state :=
  mkState (_file_path st) (cache st) (src_lang st) (trgt_lang st) (fs st) (log st) (calls st ++ [item]).

(** A process before any [Translator] exists. *)
Definition boot (files : gmap string file) : state :=
  mkState None ∅ "" "" files [] [].

(** ** The state-and-exception monad *)

Definition M (A : Type) : Type := state → (exn + A) * state.

Definition ret {A} (a : A) : M A := λ st, (inr a, st).

Definition bind {A B} (m : M A) (k : A → M B) : M B :=
  λ st, match m st with
        | (inr a, st') => k a st'
        | (inl e, st') => (inl e, st')
        end.

Definition raise {A} (e : exn) : M A := λ st, (inl e, st).

(** [try: body  except Exception as e: handler(e)].  Every exception of the
    model is an [Exception]. *)
Definition try_except {A} (body : M A) (handler : exn → M A) : M A :=
  λ st, match body st with
        | (inr a, st') => (inr a, st')
        | (inl e, st') => handler e st'
        end.

Definition gets {A} (f : state → A) : M A := λ st, (inr (f st), st).
Definition modify (f : state → state) : M unit := λ st, (inr tt, f st).

Global Instance M_ret : MRet M := @ret.
Global Instance M_bind : MBind M := λ A B k m, bind m k.

(** Unfolding of the monad. *)
Ltac run_monad :=
  unfold mbind, M_bind, bind, mret, M_ret, ret, raise, gets, modify,
    try_except;
  simpl.

(** [for x in l: f(x)]. *)
Fixpoint for_each {A} (f : A → M unit) (l : list A) : M unit :=
  match l with
  | [] => mret tt
  | x :: l' => f x ;; for_each f l'
  end.

(** [[f(x) for x in l]], the calls made in list order. *)
Fixpoint map_M {A B} (f : A → M B) (l : list A) : M (list B) :=
  match l with
  | [] => mret []
  | x :: l' => y ← f x; ys ← map_M f l'; mret (y :: ys)
  end.

(** ** The logger *)

Definition logger_info (msg : string) : M unit := modify (add_log (INFO, msg)).
Definition logger_warning (msg : string) : M unit := modify (add_log (WARNING, msg)).
Definition logger_error (msg : string) : M unit := modify (add_log (ERROR, msg)).

(** A scheduler of the thread pool: the order in which the submitted
    tasks take effect, some permutation of the order of submission. *)
Record scheduler := mkScheduler {
  run_order :> list string → list string;
  run_order_perm : ∀ items, run_order items ≡ₚ items
}.

(** ** The [Translator] class *)

Section Translator.

(** [self.client.translate_text(Text=…, SourceLanguageCode=…,
    TargetLanguageCode=…)]: the service answers a request with a response
    dict or raises. *)
Variable service : string → string → string → exn + gmap string string.

(** The order in which the thread pool runs the submitted tasks. *)
Variable sched : scheduler.

(** [os.path.exists(path)]. *)
Definition os_path_exists (path : string) : M bool :=
  gets (λ st, bool_decide (is_Some (fs st !! path))).

(** The [file_path] property: setter and getter. *)
Definition file_path_setter (file_path : string) : M unit :=
  found ← os_path_exists file_path;
  if found : bool
  then modify (set_file_path file_path)
  else raise (FileNotFoundError "File Not Found Error").

Definition file_path_getter : M string :=
  p ← gets _file_path;
  match p with
  | Some path => mret path
  | None => raise (AttributeError "_file_path")
  end.

(** [Translator(file_path, src_lang, trgt_lang)].  The logger and the
    service client it also creates are the world's. *)
Definition __init__ (file_path src trgt : string) : M unit :=
  file_path_setter file_path;;
  modify (set_cache ∅);;
  modify (set_langs src trgt).

(** [open_excel()] with its default [sheet_name=None]: every sheet of the
    workbook, in workbook order. *)
Definition open_excel : M workbook :=
  path ← file_path_getter;
  f ← gets (λ st, fs st !! path);
  match f with
  | Some (Workbook wb) => mret wb
  | Some Other => raise (ReadError path)
  | None => raise (FileNotFoundError path)
  end.

Definition client_translate_text (item : string) : M (gmap string string) :=
  src ← gets src_lang;
  trgt ← gets trgt_lang;
  modify (add_call item);;
  match service item src trgt with
  | inr resp => mret resp
  | inl e => raise e
  end.

(** [resp[k]]. *)
Definition getitem (resp : gmap string string) (k : string) : M string :=
  match resp !! k with
  | Some v => mret v
  | None => raise (KeyError k)
  end.

(** [self.cache[k] = v]. *)
Definition cache_setitem (k v : string) : M unit :=
  modify (λ st, set_cache (<[k:=v]> (cache st)) st).

Definition translate (item : string) : M unit :=
  try_except
    (resp ← client_translate_text item;
     text ← getitem resp "TranslatedText";
     cache_setitem item text)
    (λ e,
       logger_error ("Failed with error: " +:+ exn_str e);;
       logger_warning ("Failed to translate item: " +:+ item)).

(** [threadpool.submit(task)]: the task runs; what it raises stays in its
    future, which nobody reads. *)
Definition submit (task : M unit) : M unit :=
  λ st, (inr tt, (task st).2).

Definition translate_async (items : list string) : M unit :=
  for_each (λ item, submit (translate item)) (sched items).

(** [list(set(items) - set(self.cache.keys()))]. *)
Definition check_cache (items : list string) : M (list string) :=
  gets (λ st, elements ((list_to_set items : gset string) ∖ dom (cache st))).

(** The lambda of the mask:
    [True if isinstance(x, str) and not x.isascii() else False]. *)
Definition flagged (x : cell) : bool :=
  match x with
  | Str s => negb (isascii s)
  | _ => false
  end.

(** [lambda x: self.cache.get(x)] on a cache [c]: the translation, or
    [None], a missing value in the frame. *)
Definition cache_get (c : gmap string string) (x : cell) : cell :=
  match x with
  | Str s => match c !! s with Some t => Str t | None => NA end
  | _ => NA
  end.

(** [df.rename(columns=mapper)] with a dict: a column that is a key takes
    the mapped name. *)
Definition rename (mapper : gmap string string) (cols : list string)
  : list string :=
  fmap (λ col, default col (mapper !! col)) cols.

(** The flagged strings of a sheet: [unique_items.union(set(headers))]. *)
Definition flagged_items (df : DataFrame) : gset string :=
  let headers := filter (λ header, isascii header = false) (columns df) in
  let mask := grid_map flagged (values df) in
  let unique_items : gset string :=
    list_to_set (strs (stack (grid_where (values df) mask))) in
  unique_items ∪ list_to_set headers.

Definition translate_DataFrame (key : string) (df : DataFrame)
  : M (string * DataFrame) :=
  let mask := grid_map flagged (values df) in
  let all_items := elements (flagged_items df) in
  items_to_translate ← check_cache all_items;
  translate_async items_to_translate;;
  c ← gets cache;
  let lookup_df :=
    grid_map_ignore_na (cache_get c) (grid_where (values df) mask) in
  let translated := grid_mask (values df) mask lookup_df in
  let mapper : gmap string string :=
    list_to_map (fmap (λ old, (old, default old (c !! old))) (columns df)) in
  mret (key, mkDataFrame (rename mapper (columns df)) translated).

(** [with pd.ExcelWriter(path) as writer: for name, df in sheets.items():
    df.to_excel(writer, sheet_name=name)]: the state records under [path]
    the frames handed to [to_excel], sheet by sheet, in this order.  What
    the writer makes of them is not modelled: it can refuse the path (a
    missing directory) or a sheet title, and it adds the index column to
    every sheet. *)
Definition ExcelWriter (path : string) (sheets : workbook) : M unit :=
  modify (λ st, set_fs (<[path:=Workbook sheets]> (fs st)) st).

(** Lines 133 to 141: translate the sheet names, then pair every sheet
    with its name. *)
Definition translate_names (dfs : workbook) : M (list (string * DataFrame)) :=
  let worksheet_names := filter (λ name, isascii name = false) dfs.*1 in
  worksheet_names_to_translate ← check_cache worksheet_names;
  (if bool_decide (0 < length worksheet_names_to_translate)
   then
     logger_info ("Translating "
                  +:+ pretty (length worksheet_names_to_translate)
                  +:+ " items");;
     translate_async worksheet_names_to_translate
   else mret tt);;
  c ← gets cache;
  mret (fmap (λ kv, (default kv.1 (c !! kv.1), kv.2)) dfs).

Definition translate_excel : M unit :=
  dfs ← open_excel;
  args ← translate_names dfs;
  logger_info "Creating child process...";;
  results ← map_M (λ a, translate_DataFrame a.1 a.2) args;
  let translated_dfs := odict_of_pairs results in
  path ← file_path_getter;
  ExcelWriter ("translated_" +:+ path) translated_dfs;;
  logger_info "Excel file has been translated!".

(** ** Closed forms used by the proofs *)

(** The value at row [i], column [j]. *)
Definition cell_at {A} (d : grid A) (i j : nat) : option A :=
  d !! i ≫= (.!! j).

(** What [translate_DataFrame] leaves in a cell and returns as a sheet,
    given what the cache it reads after the dispatch holds for each key
    ([look k] is [cache.get(k)]). *)
Definition cell_out (look : string → option string) (x : cell) : cell :=
  if flagged x
  then match x with
       | Str s => match look s with Some t => Str t | None => NA end
       | _ => NA
       end
  else x.

Definition sheet_out (look : string → option string) (df : DataFrame)
  : DataFrame :=
  mkDataFrame (fmap (λ old, default old (look old)) (columns df))
              (grid_map (cell_out look) (values df)).

(** The outcome of the [try] block of [translate]: the translated text,
    or the exception raised by the service or by the missing
    ['TranslatedText'] field. *)
Definition outcome (src trgt item : string) : exn + string :=
  match service item src trgt with
  | inl e => inl e
  | inr resp =>
      match resp !! "TranslatedText" with
      | Some text => inr text
      | None => inl (KeyError "TranslatedText")
      end
  end.

(** The translation obtained for an item, if any. *)
Definition tx (st : state) (item : string) : option string :=
  match outcome (src_lang st) (trgt_lang st) item with
  | inr text => Some text
  | inl _ => None
  end.

(** The state after [translate item]. *)
Definition translated (st : state) (item : string) : state :=
  match outcome (src_lang st) (trgt_lang st) item with
  | inr text => set_cache (<[item:=text]> (cache st)) (add_call item st)
  | inl e =>
      add_log (WARNING, "Failed to translate item: " +:+ item)
        (add_log (ERROR, "Failed with error: " +:+ exn_str e)
           (add_call item st))
  end.

(** The state after the tasks of [l] ran in this order. *)
Definition dispatched (l : list string) (st : state) : state :=
  foldl translated st l.

(** The items a sheet sends to the dispatcher, in the order they run. *)
Definition pending (df : DataFrame) (st : state) : list string :=
  sched (elements (flagged_items df ∖ dom (cache st))).

(** The translation the pipeline uses for [k] when started in [st0]: the
    cached one, else, for a non-ASCII [k], the one the service gives. *)
Definition final_lookup (st0 : state) (k : string) : option string :=
  match cache st0 !! k with
  | Some t => Some t
  | None => if isascii k then None else tx st0 k
  end.

(** [st] comes from [st0] by dispatches of non-ASCII items: the object's
    fields and the files are those of [st0], the cache grew by
    translations of non-ASCII keys, calls and log records were added. *)
Record evolves (st0 st : state) : Prop := mkEvolves {
  ev_file_path : _file_path st = _file_path st0;
  ev_src : src_lang st = src_lang st0;
  ev_trgt : trgt_lang st = trgt_lang st0;
  ev_fs : fs st = fs st0;
  ev_cache : cache st0 ⊆ cache st;
  ev_new : ∀ k v, cache st !! k = Some v → final_lookup st0 k = Some v;
  ev_calls : ∃ new, calls st = calls st0 ++ new
                    ∧ Forall (λ item, isascii item = false) new;
  ev_log : log st0 `prefix_of` log st
}.

(** The message of a failed item is in the log. *)
Definition failure_logged (st st' : state) (item : string) : Prop :=
  ∀ e, outcome (src_lang st) (trgt_lang st) item = inl e →
       (ERROR, "Failed with error: " +:+ exn_str e) ∈ log st'
       ∧ (WARNING, "Failed to translate item: " +:+ item) ∈ log st'.

(** The results the pool returns for a workbook, in task order. *)
Definition expected_results (st : state) (wb : workbook)
  : list (string * DataFrame) :=
  (λ kv, (default kv.1 (final_lookup st kv.1),
          sheet_out (final_lookup st) kv.2)) <$> wb.

(** The state after a run of [translate_excel] that wrote [sheets], from
    the state [st2] in which the pool finished. *)
Definition written (p : string) (sheets : workbook) (st2 : state) : state :=
  add_log (INFO, "Excel file has been translated!")
    (set_fs (<["translated_" +:+ p := Workbook sheets]> (fs st2)) st2).

End Translator.

(** ** Notions used to state the properties *)

(** No key of the cache is an ASCII string. *)
Definition keys_nonascii (c : gmap string string) : Prop :=
  ∀ k, is_Some (c !! k) → isascii k = false.

(** The service answers every request, and its answer carries the text
    [tr text src trgt]. *)
Definition succeeds_with
    (service : string → string → string → exn + gmap string string)
    (tr : string → string → string → string) : Prop :=
  ∀ text src trgt,
    ∃ resp, service text src trgt = inr resp
            ∧ resp !! "TranslatedText" = Some (tr text src trgt).

(** One use of the class by the pipeline: constructing the translator,
    processing a sheet, translating the workbook; under any service and
    any scheduler, whether the call returns or raises. *)
Inductive step : state → state → Prop :=
  | step_init path src trgt st :
      step st (__init__ path src trgt st).2
  | step_sheet service sched key df st :
      step st (translate_DataFrame service sched key df st).2
  | step_excel service sched st :
      step st (translate_excel service sched st).2.

(** The states the pipeline reaches from a process start. *)
Definition reachable (st : state) : Prop :=
  ∃ files, rtc step (boot files) st.

(** [os.path.basename]: what follows the last ["/"] (code 47) of the
    path. *)
Fixpoint basename_from (acc path : string) : string :=
  match path with
  | EmptyString => acc
  | String a rest =>
      if (Ascii.N_of_ascii a =? 47)%N
      then basename_from "" rest
      else basename_from (acc +:+ String a "") rest
  end.

Definition basename (path : string) : string := basename_from "" path.

(** ** Schedulers, services and workbooks of the examples *)

(** Tasks take effect in the order of submission, or in the reverse order. *)
Definition fifo : scheduler :=
  mkScheduler (λ items, items) (λ items, Permutation_refl items).

Definition lifo : scheduler :=
  mkScheduler reverse (λ items, reverse_Permutation items).

(** A service that is down. *)
Definition svc_down : string → string → string → exn + gmap string string :=
  λ _ _ _, inl (ClientError "service unavailable").

(** A service that translates through a fixed glossary and rejects any
    other text. *)
Definition svc_glossary (glossary : gmap string string)
  : string → string → string → exn + gmap string string :=
  λ text _ _,
    match glossary !! text with
    | Some t => inr {[ "TranslatedText" := t ]}
    | None => inl (ClientError "unsupported text")
    end.

(** A translator whose cache already holds one translation, and a sheet
    with that text in a cell. *)
Definition st_cafe : state :=
  set_cache {[ "café" := "coffee shop" ]} (boot ∅).

Definition df_cafe : DataFrame :=
  mkDataFrame ["name"] [[Str "café"; Num 2]].

(** A sheet with a non-ASCII header and a non-ASCII cell. *)
Definition df_menu : DataFrame :=
  mkDataFrame ["né"; "price"] [[Str "café"; Num 3]; [Str "tea"; NA]].

(** Running the pipeline: construct the translator on the path, then
    translate the workbook. *)
Definition run_pipeline
    (service : string → string → string → exn + gmap string string)
    (sched : scheduler) (path src trgt : string) (files : gmap string file)
  : (exn + unit) * state :=
  (__init__ path src trgt;; translate_excel service sched) (boot files).

(** A workbook with a non-ASCII and an ASCII sheet name. *)
Definition files_book : gmap string file :=
  {[ "book.xlsx" := Workbook [("日本語", df_menu); ("Sheet2", df_cafe)] ]}.

Definition svc_cafe : string → string → string → exn + gmap string string :=
  svc_glossary {[ "café" := "coffee shop"; "né" := "born" ]}.

(** A workbook in which the translation of one sheet name is the name of
    another sheet. *)
Definition df_ascii : DataFrame := mkDataFrame ["id"] [[Str "hello"]].
Definition df_notes : DataFrame := mkDataFrame ["id"] [[Str "note"]].
Definition df_fr : DataFrame := mkDataFrame ["id"] [[Str "bonjour"]].

Definition files_collide : gmap string file :=
  {[ "book.xlsx" := Workbook [("Data", df_ascii); ("Données", df_fr)] ]}.

Definition files_three : gmap string file :=
  {[ "book.xlsx" :=
       Workbook [("Data", df_ascii); ("Notes", df_notes); ("Données", df_fr)] ]}.

Definition svc_data : string → string → string → exn + gmap string string :=
  svc_glossary {[ "Données" := "Data" ]}.

(** A workbook inside a directory. *)
Definition files_dir : gmap string file :=
  {[ "data/book.xlsx" := Workbook [("Sheet1", df_ascii)] ]}.

(** The translator as constructed on ["book.xlsx"], for a given file
    system. *)
Definition st_book (files : gmap string file) : state :=
  mkState (Some "book.xlsx") ∅ "fr" "en" files [] [].

(** Two services that always answer, with the same text but with
    differently shaped responses. *)
Definition tr_tag (text src trgt : string) : string :=
  "[" +:+ trgt +:+ "] " +:+ text.

Definition svc_tag : string → string → string → exn + gmap string string :=
  λ text src trgt, inr {[ "TranslatedText" := tr_tag text src trgt ]}.

Definition svc_tag_verbose
  : string → string → string → exn + gmap string string :=
  λ text src trgt,
    inr (<[ "TranslatedText" := tr_tag text src trgt ]>
           {[ "SourceLanguageCode" := src ]}).

(** The translator as constructed on a workbook inside the directory
    ["data"]. *)
Definition st_dir : state :=
  mkState (Some "data/book.xlsx") ∅ "fr" "en" files_dir [] [].

(** ** Further notions *)

(** The records [translate] leaves in the log for an item: two when its
    request fails, none when it succeeds. *)
Definition failure_records
    (service : string → string → string → exn + gmap string string)
    (st : state) (item : string) : list (level * string) :=
  match outcome service (src_lang st) (trgt_lang st) item with
  | inr _ => []
  | inl e => [(ERROR, "Failed with error: " +:+ exn_str e);
              (WARNING, "Failed to translate item: " +:+ item)]
  end.

(** The texts of a workbook that are candidates for translation: its
    non-ASCII sheet names and the flagged items of its sheets. *)
Definition workbook_texts (wb : workbook) : gset string :=
  list_to_set (filter (λ name, isascii name = false) wb.*1)
  ∪ ⋃ (flagged_items <$> wb.*2).

(** Between [st] and [s] only texts of [T] were sent, and every key the
    cache gained is one of the texts sent. *)
Definition tracked (T : gset string) (st s : state) : Prop :=
  ∃ sent,
    calls s = calls st ++ sent
    ∧ Forall (λ k, k ∈ T) sent
    ∧ ∀ k, is_Some (cache s !! k) → is_Some (cache st !! k) ∨ k ∈ sent.

(** Further services and workbooks of the examples. *)
Definition svc_bar : string → string → string → exn + gmap string string :=
  svc_glossary {[ "café" := "bar" ]}.

(** A service whose responses lack the ['TranslatedText'] field. *)
Definition svc_malformed : string → string → string → exn + gmap string string :=
  λ _ _ _, inr {[ "SourceLanguageCode" := "fr" ]}.

Definition files_ascii : gmap string file :=
  {[ "book.xlsx" := Workbook [("Data", df_ascii); ("Notes", df_notes)] ]}.

Definition files_other : gmap string file :=
  {[ "book.xlsx" := Other ]}.

(** Lines 131 to 146 of [translate_excel]: everything up to and including
    the dict of results, which is what the writer is then given. *)
Definition frames_for_writer
    (service : string → string → string → exn + gmap string string)
    (sched : scheduler) : M workbook :=
  dfs ← open_excel;
  args ← translate_names service sched dfs;
  logger_info "Creating child process...";;
  results ← map_M (λ a, translate_DataFrame service sched a.1 a.2) args;
  mret (odict_of_pairs results).

(** A service that always answers, with texts that are valid sheet
    titles. *)
Definition tr_plain (text src trgt : string) : string :=
  trgt +:+ " " +:+ text.

Definition svc_plain : string → string → string → exn + gmap string string :=
  λ text src trgt, inr {[ "TranslatedText" := tr_plain text src trgt ]}.

(** * Properties of the embedding *)

(** ** Sheets as grids *)

Lemma cell_at_grid_map {A B} (f : A → B) (d : grid A) i j :
  cell_at (grid_map f d) i j = f <$> cell_at d i j.
Proof.
  unfold cell_at, grid_map. rewrite list_lookup_fmap.
  destruct (d !! i) as [row|]; simpl; [|done].
  apply list_lookup_fmap.
Qed.

Lemma row_where_flagged (row : list cell) :
  zip_with (λ x (b : bool), if b then x else NA) row (fmap flagged row)
  = fmap (λ x, if flagged x then x else NA) row.
Proof. induction row as [|x row IH]; csimpl; [done|]. by rewrite IH. Qed.

Lemma grid_where_flagged (d : grid cell) :
  grid_where d (grid_map flagged d)
  = grid_map (λ x, if flagged x then x else NA) d.
Proof.
  unfold grid_where, grid_map.
  induction d as [|row d IH]; csimpl; [done|].
  by rewrite row_where_flagged, IH.
Qed.

Lemma row_translated c (row : list cell) :
  zip_with (λ x (p : bool * cell), if p.1 then p.2 else x) row
    (zip (fmap flagged row)
         (fmap (λ x, if isna x then x else cache_get c x)
              (fmap (λ x, if flagged x then x else NA) row)))
  = fmap (cell_out (λ k, c !! k)) row.
Proof.
  induction row as [|x row IH]; csimpl; [done|].
  rewrite IH. f_equal.
  unfold cell_out. destruct x as [s| |]; simpl; try done.
  by destruct (isascii s).
Qed.

(** The three pandas steps of lines 112 to 115 amount to one pass over the
    cells. *)
Lemma grid_translated c (d : grid cell) :
  grid_mask d (grid_map flagged d)
    (grid_map_ignore_na (cache_get c) (grid_where d (grid_map flagged d)))
  = grid_map (cell_out (λ k, c !! k)) d.
Proof.
  rewrite grid_where_flagged.
  unfold grid_mask, grid_map_ignore_na, grid_map.
  induction d as [|row d IH]; csimpl; [done|].
  by rewrite row_translated, IH.
Qed.

Lemma elem_of_concat {A} (x : A) (ls : list (list A)) :
  x ∈ concat ls ↔ ∃ l, l ∈ ls ∧ x ∈ l.
Proof.
  induction ls as [|l ls IH]; simpl.
  - split; [by intros ?%elem_of_nil | by intros (? & ?%elem_of_nil & _)].
  - rewrite elem_of_app, IH. split.
    + intros [?|(l' & ? & ?)]; [exists l | exists l']; split; auto; constructor; done.
    + intros (l' & [->|?]%elem_of_cons & ?); [by left | right; by exists l'].
Qed.

(** Under the mask, the stacked values are exactly the non-ASCII strings of
    the sheet. *)
Lemma stack_where_flagged (d : grid cell) (x : cell) :
  x ∈ stack (grid_where d (grid_map flagged d))
  ↔ ∃ s, x = Str s ∧ isascii s = false ∧ ∃ row, row ∈ d ∧ Str s ∈ row.
Proof.
  rewrite grid_where_flagged. unfold stack, grid_map.
  rewrite list_elem_of_filter, elem_of_concat. split.
  - intros (Hna & l & Hl & Hx).
    apply list_elem_of_fmap in Hl as (row & -> & Hrow).
    apply list_elem_of_fmap in Hx as (y & -> & Hy).
    destruct y as [s| |]; simpl in *; try done.
    destruct (isascii s) eqn:Hs; simpl in *; [done|].
    exists s. repeat split; eauto.
  - intros (s & -> & Hs & row & Hrow & Hin). split; [done|].
    exists (fmap (λ x, if flagged x then x else NA) row). split.
    + apply list_elem_of_fmap. eauto.
    + apply list_elem_of_fmap. exists (Str s). simpl. by rewrite Hs.
Qed.

Lemma elem_of_strs (s : string) (l : list cell) : s ∈ strs l ↔ Str s ∈ l.
Proof.
  unfold strs. rewrite list_elem_of_omap. split.
  - intros (x & Hx & Heq). destruct x; naive_solver.
  - intros ?. by exists (Str s).
Qed.

(** The flagged items of a sheet are its non-ASCII headers and its
    non-ASCII string cells. *)
Lemma elem_of_flagged_items (s : string) (df : DataFrame) :
  s ∈ flagged_items df
  ↔ isascii s = false
    ∧ (s ∈ columns df ∨ ∃ row, row ∈ values df ∧ Str s ∈ row).
Proof.
  unfold flagged_items.
  rewrite elem_of_union, !elem_of_list_to_set, elem_of_strs,
    stack_where_flagged, list_elem_of_filter.
  split.
  - intros [(s' & [= <-] & ? & ?)|[? ?]]; auto.
  - intros [? [?|?]]; [right | left]; eauto.
Qed.

Lemma flagged_items_nonascii (s : string) (df : DataFrame) :
  s ∈ flagged_items df → isascii s = false.
Proof. by intros [? _]%elem_of_flagged_items. Qed.

Lemma lookup_rename_mapper (f : string → string) (cols : list string) k :
  k ∈ cols →
  (list_to_map (fmap (λ old, (old, f old)) cols) : gmap string string) !! k
  = Some (f k).
Proof.
  induction cols as [|col cols IH]; simpl; [by intros ?%elem_of_nil|].
  intros Hk. destruct (decide (col = k)) as [->|Hne].
  - apply lookup_insert_eq.
  - rewrite lookup_insert_ne by done.
    apply IH. by apply elem_of_cons in Hk as [?|?].
Qed.

Lemma rename_columns (f : string → string) (cols : list string) :
  rename (list_to_map (fmap (λ old, (old, f old)) cols)) cols = fmap f cols.
Proof.
  unfold rename. apply list_fmap_ext. intros i k Hk%list_elem_of_lookup_2.
  by rewrite lookup_rename_mapper.
Qed.

(** ** What the methods compute *)

Section Runs.

Variable service : string → string → string → exn + gmap string string.
Variable sched : scheduler.

Lemma translate_run item st :
  translate service item st = (inr tt, translated service st item).
Proof.
  unfold translate, client_translate_text, getitem, cache_setitem,
    logger_error, logger_warning, translated, outcome.
  run_monad.
  destruct (service item (src_lang st) (trgt_lang st)) as [e|resp];
    simpl; [done|].
  by destruct (resp !! "TranslatedText").
Qed.

Lemma for_each_submit_run l st :
  for_each (λ item, submit (translate service item)) l st
  = (inr tt, dispatched service l st).
Proof.
  revert st. induction l as [|item l IH]; intros st; [done|].
  simpl. unfold mbind, M_bind, bind, submit.
  rewrite translate_run. simpl. apply IH.
Qed.

Lemma translate_async_run items st :
  translate_async service sched items st
  = (inr tt, dispatched service (sched items) st).
Proof. apply for_each_submit_run. Qed.

Lemma translated_frame st item :
  _file_path (translated service st item) = _file_path st
  ∧ src_lang (translated service st item) = src_lang st
  ∧ trgt_lang (translated service st item) = trgt_lang st
  ∧ fs (translated service st item) = fs st
  ∧ calls (translated service st item) = calls st ++ [item].
Proof.
  unfold translated.
  by destruct (outcome service (src_lang st) (trgt_lang st) item).
Qed.

Lemma tx_translated st item k : tx service (translated service st item) k = tx service st k.
Proof.
  unfold tx.
  destruct (translated_frame st item) as (_ & -> & -> & _). done.
Qed.

Lemma translated_cache st item k :
  cache (translated service st item) !! k
  = if decide (k = item)
    then match tx service st k with Some t => Some t | None => cache st !! k end
    else cache st !! k.
Proof.
  unfold translated, tx. destruct (decide (k = item)) as [Hk|Hk].
  - subst k. destruct (outcome service (src_lang st) (trgt_lang st) item); simpl;
      [done | apply lookup_insert_eq].
  - destruct (outcome service (src_lang st) (trgt_lang st) item); simpl;
      [done | by apply lookup_insert_ne].
Qed.

Lemma translated_log st item :
  log (translated service st item)
  = log st ++
    match outcome service (src_lang st) (trgt_lang st) item with
    | inr _ => []
    | inl e => [(ERROR, "Failed with error: " +:+ exn_str e);
                (WARNING, "Failed to translate item: " +:+ item)]
    end.
Proof.
  unfold translated.
  destruct (outcome service (src_lang st) (trgt_lang st) item); simpl.
  - by rewrite <- app_assoc.
  - by rewrite app_nil_r.
Qed.

Lemma dispatched_frame l st :
  _file_path (dispatched service l st) = _file_path st
  ∧ src_lang (dispatched service l st) = src_lang st
  ∧ trgt_lang (dispatched service l st) = trgt_lang st
  ∧ fs (dispatched service l st) = fs st
  ∧ calls (dispatched service l st) = calls st ++ l.
Proof.
  revert st. induction l as [|item l IH]; intros st; simpl.
  - by rewrite app_nil_r.
  - destruct (IH (translated service st item)) as (-> & -> & -> & -> & ->).
    destruct (translated_frame st item) as (-> & -> & -> & -> & ->).
    by rewrite <- app_assoc.
Qed.

Lemma tx_dispatched l st k : tx service (dispatched service l st) k = tx service st k.
Proof.
  unfold tx.
  destruct (dispatched_frame l st) as (_ & -> & -> & _). done.
Qed.

(** The cache after a dispatch: an item that ran and was translated service holds
    its translation, every other key is as before. *)
Lemma dispatched_cache l st k :
  cache (dispatched service l st) !! k
  = if decide (k ∈ l)
    then match tx service st k with Some t => Some t | None => cache st !! k end
    else cache st !! k.
Proof.
  revert st. induction l as [|item l IH]; intros st.
  - rewrite decide_False by apply not_elem_of_nil. done.
  - change (dispatched service (item :: l) st) with (dispatched service l (translated service st item)).
    rewrite IH, tx_translated, translated_cache.
    destruct (decide (k = item)) as [->|Hne].
    + rewrite (decide_True (P:=item ∈ item :: l)) by constructor.
      case_decide; by destruct (tx service st item).
    + destruct (decide (k ∈ l)) as [Hin|Hnin].
      * rewrite (decide_True (P:=k ∈ item :: l)) by by constructor. done.
      * rewrite (decide_False (P:=k ∈ item :: l)); [done|].
        by intros [?|?]%elem_of_cons.
Qed.

Lemma dispatched_log_prefix l st : log st `prefix_of` log (dispatched service l st).
Proof.
  revert st. induction l as [|item l IH]; intros st; simpl; [done|].
  etrans; [|apply IH]. rewrite translated_log. by apply prefix_app_r.
Qed.

(** A failed item leaves its two log records. *)
Lemma dispatched_log_failure l st item e :
  item ∈ l →
  outcome service (src_lang st) (trgt_lang st) item = inl e →
  (ERROR, "Failed with error: " +:+ exn_str e) ∈ log (dispatched service l st)
  ∧ (WARNING, "Failed to translate item: " +:+ item) ∈ log (dispatched service l st).
Proof.
  revert st. induction l as [|x l IH]; intros st Hin He;
    [by apply elem_of_nil in Hin|].
  simpl. apply elem_of_cons in Hin as [->|Hin].
  - assert (Hlog : ∀ r, r ∈ log (translated service st x) →
                        r ∈ log (dispatched service l (translated service st x))).
    { intros r Hr. destruct (dispatched_log_prefix l (translated service st x)) as [k ->].
      apply elem_of_app. by left. }
    split; apply Hlog; rewrite translated_log, He;
      apply elem_of_app; right; repeat constructor.
  - apply IH; [done|].
    destruct (translated_frame st x) as (_ & -> & -> & _). done.
Qed.

Lemma check_cache_run items st :
  check_cache items st
  = (inr (elements ((list_to_set items : gset string) ∖ dom (cache st))), st).
Proof. done. Qed.

Lemma elem_of_pending df st k :
  k ∈ pending sched df st ↔ k ∈ flagged_items df ∧ cache st !! k = None.
Proof.
  unfold pending. rewrite (run_order_perm sched), elem_of_elements,
    elem_of_difference, not_elem_of_dom. done.
Qed.

Lemma translate_DataFrame_run key df st :
  translate_DataFrame service sched key df st
  = (inr (key, sheet_out (λ k, cache (dispatched service (pending sched df st) st) !! k) df),
     dispatched service (pending sched df st) st).
Proof.
  unfold translate_DataFrame. run_monad.
  rewrite list_to_set_elements_L, translate_async_run. simpl.
  unfold sheet_out, pending. by rewrite grid_translated, rename_columns.
Qed.

(** ** The pipeline against the cache it started from *)

Lemma evolves_refl st : evolves service st st.
Proof.
  split; try done.
  - intros k v Hk. unfold final_lookup. by rewrite Hk.
  - exists []. by rewrite app_nil_r.
Qed.

Lemma evolves_add_log st0 st r : evolves service st0 st → evolves service st0 (add_log r st).
Proof.
  intros []. split; try done. simpl.
  etrans; [done|]. by apply prefix_app_r.
Qed.

Lemma tx_evolves st0 st k : evolves service st0 st → tx service st k = tx service st0 k.
Proof. intros [_ Hs Ht]. unfold tx. by rewrite Hs, Ht. Qed.

(** Dispatching non-ASCII items that the cache lacks. *)
Lemma evolves_dispatched st0 st l :
  evolves service st0 st →
  (∀ k, k ∈ l → isascii k = false ∧ cache st !! k = None) →
  evolves service st0 (dispatched service l st).
Proof.
  intros Hev Hl.
  destruct (dispatched_frame l st) as (Hp & Hs & Ht & Hf & Hc).
  destruct Hev as [Hp0 Hs0 Ht0 Hf0 Hsub Hnew (new & Hcalls & Hasc) Hlog].
  split; try congruence.
  - apply map_subseteq_spec. intros k v Hk.
    rewrite dispatched_cache.
    pose proof (lookup_weaken _ _ _ _ Hk Hsub) as Hk'.
    case_decide as Hin; [|done].
    apply Hl in Hin as [_ Hnone]. congruence.
  - intros k v. rewrite dispatched_cache.
    case_decide as Hin; [|by apply Hnew].
    destruct (Hl k Hin) as [Hk Hnone]. rewrite Hnone.
    assert (cache st0 !! k = None) as H0.
    { destruct (cache st0 !! k) eqn:E; [|done].
      pose proof (lookup_weaken _ _ _ _ E Hsub). congruence. }
    unfold final_lookup. rewrite H0, Hk.
    replace (tx service st0 k) with (tx service st k) by (unfold tx; by rewrite Hs0, Ht0).
    by destruct (tx service st k).
  - exists (new ++ l). rewrite Hc, Hcalls, app_assoc. split; [done|].
    apply Forall_app. split; [done|].
    apply Forall_forall. intros k Hk. by apply Hl.
  - etrans; [done|]. apply dispatched_log_prefix.
Qed.

(** After dispatching the keys of [X] that the cache lacks, the cache
    agrees with [final_lookup] on [X] and on every ASCII key. *)
Lemma dispatched_final_lookup st0 st (X : gset string) l k :
  evolves service st0 st →
  (∀ k, k ∈ l ↔ k ∈ X ∧ cache st !! k = None) →
  (∀ k, k ∈ X → isascii k = false) →
  k ∈ X ∨ isascii k = true →
  cache (dispatched service l st) !! k = final_lookup service st0 k.
Proof.
  intros Hev Hl HX Hk. rewrite dispatched_cache.
  pose proof (ev_cache _ _ _ Hev) as Hsub.
  assert (cache st !! k = None → cache st0 !! k = None) as Hnone.
  { intros Hn. destruct (cache st0 !! k) eqn:E; [|done].
    pose proof (lookup_weaken _ _ _ _ E Hsub). congruence. }
  destruct (cache st !! k) as [v|] eqn:Hc.
  - rewrite decide_False by (rewrite Hl; intros [_ ?]; congruence).
    symmetry. by apply (ev_new _ _ _ Hev).
  - specialize (Hnone eq_refl). unfold final_lookup. rewrite Hnone.
    rewrite (tx_evolves _ _ _ Hev).
    destruct Hk as [Hk|Hk].
    + rewrite decide_True by (by rewrite Hl).
      rewrite (HX k Hk). by destruct (tx service st0 k).
    + rewrite decide_False; [by rewrite Hk|].
      rewrite Hl. intros [?%HX _]. congruence.
Qed.

Lemma grid_map_ext {A B} (f g : A → B) (d : grid A) :
  (∀ row x, row ∈ d → x ∈ row → f x = g x) →
  grid_map f d = grid_map g d.
Proof.
  intros H. unfold grid_map. apply Forall_fmap_ext_1, Forall_forall.
  intros row Hrow. apply Forall_fmap_ext_1, Forall_forall.
  intros x Hx. by apply (H row).
Qed.

Lemma sheet_out_ext (look1 look2 : string → option string) df :
  (∀ k, k ∈ flagged_items df ∨ isascii k = true → look1 k = look2 k) →
  sheet_out look1 df = sheet_out look2 df.
Proof.
  intros H. unfold sheet_out. f_equal.
  - apply Forall_fmap_ext_1, Forall_forall. intros k Hk.
    rewrite H; [done|].
    destruct (isascii k) eqn:E; [by right|left].
    apply elem_of_flagged_items. auto.
  - apply grid_map_ext. intros row x Hrow Hx.
    unfold cell_out. destruct x as [s| |]; simpl; try done.
    destruct (isascii s) eqn:E; simpl; [done|].
    rewrite H; [done|]. left. apply elem_of_flagged_items. eauto.
Qed.

(** One sheet, run anywhere in the pipeline, comes out as the sheet of
    [final_lookup]. *)
Lemma translate_DataFrame_evolves st0 st key df :
  evolves service st0 st →
  ∃ st', translate_DataFrame service sched key df st
         = (inr (key, sheet_out (final_lookup service st0) df), st')
         ∧ evolves service st0 st'
         ∧ log st `prefix_of` log st'.
Proof.
  intros Hev. eexists. rewrite translate_DataFrame_run.
  split; [|split].
  - f_equal. f_equal. f_equal. apply sheet_out_ext. intros k Hk.
    apply (dispatched_final_lookup _ _ (flagged_items df)); auto.
    + intros k'. apply elem_of_pending.
    + intros k'. apply flagged_items_nonascii.
  - apply evolves_dispatched; [done|].
    intros k [Hk ?]%elem_of_pending. split; [|done].
    by apply flagged_items_nonascii in Hk.
  - apply dispatched_log_prefix.
Qed.

Lemma map_M_fun {A B} (f : A → M B) (g : A → B) (I : state → Prop) :
  (∀ a st, I st → ∃ st', f a st = (inr (g a), st') ∧ I st') →
  ∀ l st, I st → ∃ st', map_M f l st = (inr (g <$> l), st') ∧ I st'.
Proof.
  intros Hf l. induction l as [|a l IH]; intros st HI.
  - by exists st.
  - destruct (Hf a st HI) as (st1 & Hrun & HI1).
    destruct (IH st1 HI1) as (st2 & Hrun2 & HI2).
    exists st2. split; [|done].
    cbn [map_M]. unfold mbind, M_bind, bind.
    by rewrite Hrun, Hrun2.
Qed.

(** The sheet names: after the dispatch every name is paired through
    [final_lookup], and the failures among the names are logged. *)
Lemma translate_names_run dfs st :
  ∃ st1,
    translate_names service sched dfs st
    = (inr ((λ kv, (default kv.1 (cache st1 !! kv.1), kv.2)) <$> dfs), st1)
    ∧ evolves service st st1
    ∧ (∀ k, k ∈ dfs.*1 → cache st1 !! k = final_lookup service st k)
    ∧ (∀ k, k ∈ dfs.*1 → isascii k = false → cache st !! k = None →
            failure_logged service st st1 k).
Proof.
  unfold translate_names, check_cache, logger_info. run_monad.
  set (X := list_to_set (filter (λ name, isascii name = false) dfs.*1)
            : gset string).
  set (l := elements (X ∖ dom (cache st))).
  assert (HX : ∀ k, k ∈ X → isascii k = false).
  { intros k. unfold X. rewrite elem_of_list_to_set, list_elem_of_filter.
    by intros [? _]. }
  assert (HinX : ∀ k, k ∈ dfs.*1 → k ∈ X ∨ isascii k = true).
  { intros k Hk. destruct (isascii k) eqn:E; [by right|left].
    unfold X. rewrite elem_of_list_to_set, list_elem_of_filter. done. }
  assert (Hl : ∀ k, k ∈ l ↔ k ∈ X ∧ cache st !! k = None).
  { intros k. unfold l.
    by rewrite elem_of_elements, elem_of_difference, not_elem_of_dom. }
  destruct (bool_decide (0 < length l)) eqn:Hlen.
  - rewrite translate_async_run. simpl.
    set (st0 := add_log _ st).
    assert (Hs : ∀ k, k ∈ sched l ↔ k ∈ X ∧ cache st0 !! k = None).
    { intros k. by rewrite (run_order_perm sched), Hl. }
    assert (Hev0 : evolves service st st0) by apply evolves_add_log, evolves_refl.
    exists (dispatched service (sched l) st0). split; [done|]. split; [|split].
    + apply evolves_dispatched; [done|].
      intros k [Hk ?]%Hs. auto.
    + intros k Hk. apply (dispatched_final_lookup _ _ X); auto.
    + intros k Hk Hasc Hnone e He.
      apply dispatched_log_failure; [|done].
      apply Hs. split; [|done].
      destruct (HinX k Hk); [done|congruence].
  - apply bool_decide_eq_false in Hlen.
    assert (l = []) as Hnil by (destruct l; [done|simpl in Hlen; lia]).
    rewrite Hnil in Hl.
    exists st. split; [done|]. split; [|split].
    + apply evolves_refl.
    + intros k Hk.
      apply (dispatched_final_lookup st st X [] k); auto using evolves_refl.
    + intros k Hk Hasc Hnone.
      assert (k ∈ []) as []%elem_of_nil. apply Hl. split; [|done].
      destruct (HinX k Hk); [done|congruence].
Qed.

Lemma translate_excel_run st p wb :
  _file_path st = Some p →
  fs st !! p = Some (Workbook wb) →
  ∃ st2,
    translate_excel service sched st
    = (inr tt, written p (odict_of_pairs (expected_results service st wb)) st2)
    ∧ evolves service st st2
    ∧ (∀ k, k ∈ wb.*1 → isascii k = false → cache st !! k = None →
            failure_logged service st st2 k).
Proof.
  intros Hp Hwb.
  destruct (translate_names_run wb st) as (st1 & Hnames & Hev1 & Hlook & Hfail).
  destruct (map_M_fun
              (λ a, translate_DataFrame service sched a.1 a.2)
              (λ a, (a.1, sheet_out (final_lookup service st) a.2))
              (λ s, evolves service st s ∧ log st1 `prefix_of` log s))
    with (l := (λ kv, (default kv.1 (cache st1 !! kv.1), kv.2)) <$> wb)
         (st := add_log (INFO, "Creating child process...") st1)
    as (st2 & Hpool & Hev2 & Hlog2).
  { intros a s [Hev Hlog].
    destruct (translate_DataFrame_evolves st s a.1 a.2 Hev)
      as (s' & Hrun & Hev' & Hlog').
    exists s'. split; [done|]. split; [done|]. by etrans. }
  { split; [by apply evolves_add_log|]. by apply prefix_app_r. }
  assert (Hres : (λ a : string * DataFrame,
                    (a.1, sheet_out (final_lookup service st) a.2)) <$>
                 ((λ kv, (default kv.1 (cache st1 !! kv.1), kv.2)) <$> wb)
                 = expected_results service st wb).
  { unfold expected_results. rewrite <- list_fmap_compose.
    apply Forall_fmap_ext_1, Forall_forall. intros [k df] Hk. simpl.
    rewrite Hlook; [done|].
    apply list_elem_of_fmap. by exists (k, df). }
  rewrite Hres in Hpool.
  exists st2. split; [|split; [done|]].
  - unfold translate_excel, open_excel, file_path_getter, logger_info,
      ExcelWriter. run_monad.
    rewrite Hp, Hwb, Hnames. simpl. rewrite Hpool.
    by rewrite (ev_file_path _ _ _ Hev2), Hp.
  - intros k Hk Hasc Hnone e He.
    destruct (Hfail k Hk Hasc Hnone e He) as [H1 H2].
    destruct Hlog2 as [more ->]. split; apply elem_of_app; by left.
Qed.

(** Whatever the state, [translate_excel] either raises before doing
    anything or runs to the end. *)
Lemma translate_excel_cases st :
  (∃ e, translate_excel service sched st = (inl e, st))
  ∨ (∃ p wb st2,
       _file_path st = Some p
       ∧ fs st !! p = Some (Workbook wb)
       ∧ translate_excel service sched st
         = (inr tt, written p (odict_of_pairs (expected_results service st wb)) st2)
       ∧ evolves service st st2).
Proof.
  destruct (_file_path st) as [p|] eqn:Hp.
  - destruct (fs st !! p) as [[wb|]|] eqn:Hf.
    + right. destruct (translate_excel_run st p wb Hp Hf) as (st2 & ? & ? & _).
      by exists p, wb, st2.
    + left. eexists. unfold translate_excel, open_excel, file_path_getter.
      run_monad. by rewrite Hp, Hf.
    + left. eexists. unfold translate_excel, open_excel, file_path_getter.
      run_monad. by rewrite Hp, Hf.
  - left. eexists. unfold translate_excel, open_excel, file_path_getter.
    run_monad. by rewrite Hp.
Qed.

Lemma evolves_keys_nonascii st0 st :
  evolves service st0 st →
  keys_nonascii (cache st0) → keys_nonascii (cache st).
Proof.
  intros Hev H0 k [v Hk].
  apply (ev_new _ _ _ Hev) in Hk. unfold final_lookup in Hk.
  destruct (cache st0 !! k) eqn:E; [by apply H0|].
  by destruct (isascii k).
Qed.

Lemma final_lookup_ascii st k :
  keys_nonascii (cache st) → isascii k = true →
  final_lookup service st k = None.
Proof.
  intros Hkeys Hk. unfold final_lookup. rewrite Hk.
  destruct (cache st !! k) eqn:E; [|done].
  rewrite Hkeys in Hk; [done|by eexists].
Qed.

End Runs.

(** ** Sheets and dicts *)

Lemma columns_sheet_out look df i :
  columns (sheet_out look df) !! i
  = (λ old, default old (look old)) <$> columns df !! i.
Proof. unfold sheet_out. simpl. apply list_lookup_fmap. Qed.

Lemma cell_at_sheet_out look df i j :
  cell_at (values (sheet_out look df)) i j
  = cell_out look <$> cell_at (values df) i j.
Proof. unfold sheet_out. simpl. apply cell_at_grid_map. Qed.

Lemma foldl_setitem_fresh {V} (acc pairs : list (string * V)) :
  NoDup (acc.*1 ++ pairs.*1) →
  foldl (λ d kv, odict_setitem kv.1 kv.2 d) acc pairs = acc ++ pairs.
Proof.
  revert acc. induction pairs as [|[k v] pairs IH]; intros acc Hnd; simpl.
  - by rewrite app_nil_r.
  - unfold odict_setitem at 2. simpl.
    rewrite decide_False.
    + rewrite IH; [by rewrite <- app_assoc|].
      rewrite fmap_app, <- app_assoc. done.
    + apply NoDup_app in Hnd as (_ & Hdisj & _).
      intros Hk. apply (Hdisj k Hk). constructor.
Qed.

(** With pairwise distinct keys the dict comprehension keeps every pair,
    in order. *)
Lemma odict_of_pairs_NoDup {V} (pairs : list (string * V)) :
  NoDup pairs.*1 → odict_of_pairs pairs = pairs.
Proof. intros Hnd. by apply (foldl_setitem_fresh []). Qed.

(** ** The invariant of the pipeline *)

Lemma step_keys_nonascii st st' :
  step st st' →
  keys_nonascii (cache st) ∧ Forall (λ item, isascii item = false) (calls st) →
  keys_nonascii (cache st') ∧ Forall (λ item, isascii item = false) (calls st').
Proof.
  intros Hstep [Hkeys Hcalls]. destruct Hstep as [path src trgt st|service sched key df st|service sched st].
  - unfold __init__, file_path_setter, os_path_exists. run_monad.
    destruct (bool_decide (is_Some (fs st !! path))); simpl; [|done].
    split; [|done]. intros k [v Hk]. by rewrite lookup_empty in Hk.
  - destruct (translate_DataFrame_evolves service sched st st key df
                (evolves_refl service st)) as (st' & -> & Hev & _).
    simpl. split; [by apply (evolves_keys_nonascii service st)|].
    destruct (ev_calls _ _ _ Hev) as (new & -> & Hnew).
    by apply Forall_app.
  - destruct (translate_excel_cases service sched st)
      as [(e & ->)|(p & wb & st2 & _ & _ & -> & Hev)]; [done|].
    simpl. split; [by apply (evolves_keys_nonascii service st)|].
    destruct (ev_calls _ _ _ Hev) as (new & -> & Hnew).
    by apply Forall_app.
Qed.

Lemma reachable_keys_nonascii st :
  reachable st →
  keys_nonascii (cache st) ∧ Forall (λ item, isascii item = false) (calls st).
Proof.
  intros [files Hrtc].
  apply (rtc_ind_r (R:=step)
           (λ s, keys_nonascii (cache s)
                 ∧ Forall (λ item, isascii item = false) (calls s))
           (boot files)); [| |done].
  - split; [|constructor]. intros k [v Hk]. simpl in Hk.
    by rewrite lookup_empty in Hk.
  - intros st1 st2 _ Hstep IH. by apply (step_keys_nonascii st1).
Qed.

(** ** Two runs *)

Lemma string_length_app (s1 s2 : string) :
  String.length (s1 +:+ s2) = String.length s1 + String.length s2.
Proof. induction s1 as [|a s1 IH]; simpl; [done|]. by rewrite IH. Qed.

(** The output path is never the input path. *)
Lemma translated_path_fresh (p : string) : "translated_" +:+ p ≠ p.
Proof.
  intros Heq. apply (f_equal String.length) in Heq.
  rewrite string_length_app in Heq. simpl in Heq. lia.
Qed.

Lemma expected_results_ext service1 service2 st1 st2 wb :
  (∀ k, final_lookup service1 st1 k = final_lookup service2 st2 k) →
  expected_results service1 st1 wb = expected_results service2 st2 wb.
Proof.
  intros H. unfold expected_results.
  apply Forall_fmap_ext_1, Forall_forall. intros [k df] _. simpl.
  rewrite H. f_equal. apply sheet_out_ext. intros k' _. apply H.
Qed.

Lemma final_lookup_succeeds service tr st k :
  succeeds_with service tr →
  final_lookup service st k
  = match cache st !! k with
    | Some t => Some t
    | None => if isascii k then None
              else Some (tr k (src_lang st) (trgt_lang st))
    end.
Proof.
  intros Hok. unfold final_lookup, tx, outcome.
  destruct (Hok k (src_lang st) (trgt_lang st)) as (resp & -> & ->). done.
Qed.

(** A second run, on the state the first one left, looks up what the first
    one did. *)
Lemma final_lookup_rerun service1 service2 tr st st2 p sheets k :
  succeeds_with service1 tr →
  succeeds_with service2 tr →
  evolves service1 st st2 →
  final_lookup service2 (written p sheets st2) k = final_lookup service1 st k.
Proof.
  intros Hok1 Hok2 Hev.
  rewrite (final_lookup_succeeds service2 tr) by done.
  simpl. rewrite (ev_src _ _ _ Hev), (ev_trgt _ _ _ Hev).
  destruct (cache st2 !! k) as [v|] eqn:Hk.
  - symmetry. by apply (ev_new _ _ _ Hev).
  - rewrite (final_lookup_succeeds service1 tr) by done.
    by rewrite (lookup_weaken_None _ _ _ Hk (ev_cache _ _ _ Hev)).
Qed.

(** * The properties of the specification *)

(** ** Remote translator *)

(** C4. When the service call made by [translate] raises, the failure is
    logged together with the offending item, the cache is left exactly as
    it was (so the item is not inserted as a key), and [translate] returns
    normally: no exception reaches the caller. *)
Theorem translate_failure_contained
    (service : string → string → string → exn + gmap string string)
    (item : string) (st : state) (e : exn) :
  service item (src_lang st) (trgt_lang st) = inl e →
  ∃ st',
    translate service item st = (inr tt, st')
    ∧ log st' = log st ++ [(ERROR, "Failed with error: " +:+ exn_str e);
                           (WARNING, "Failed to translate item: " +:+ item)]
    ∧ cache st' = cache st
    ∧ (item ∉ dom (cache st) → item ∉ dom (cache st')).
Proof.
  intros He. exists (translated service st item).
  split; [apply translate_run|].
  rewrite translated_log. unfold translated, outcome. rewrite He. simpl.
  done.
Qed.

Lemma translate_failure_contained_witness :
  ∃ st',
    translate svc_down "café" (boot ∅) = (inr tt, st')
    ∧ log st' = [(ERROR, "Failed with error: service unavailable");
                 (WARNING, "Failed to translate item: café")]
    ∧ cache st' = ∅
    ∧ ("café" ∉ dom (∅ : gmap string string) → "café" ∉ dom (cache st')).
Proof.
  apply (translate_failure_contained svc_down "café" (boot ∅)
           (ClientError "service unavailable")).
  reflexivity.
Defined.

(** ** Construction *)

(** C7. For a path at which nothing exists, the [file_path] setter, and
    with it the construction of a [Translator], raises [FileNotFoundError]
    and leaves the whole state as it was: nothing is loaded, sent or
    written.  For an existing path construction succeeds and stores the
    path. *)
Theorem file_path_checked (path src trgt : string) (st : state) :
  (fs st !! path = None →
     file_path_setter path st
     = (inl (FileNotFoundError "File Not Found Error"), st)
     ∧ __init__ path src trgt st
       = (inl (FileNotFoundError "File Not Found Error"), st))
  ∧ (is_Some (fs st !! path) →
     ∃ st', __init__ path src trgt st = (inr tt, st')
            ∧ _file_path st' = Some path
            ∧ file_path_getter st' = (inr path, st')
            ∧ fs st' = fs st ∧ log st' = log st ∧ calls st' = calls st).
Proof.
  unfold __init__, file_path_setter, file_path_getter, os_path_exists.
  run_monad. split.
  - intros ->. rewrite bool_decide_eq_false_2; [done|].
    by intros [? ?].
  - intros Hsome. rewrite bool_decide_eq_true_2 by done. simpl.
    eexists. split; [done|]. done.
Qed.

Lemma file_path_checked_witness :
  __init__ "missing.xlsx" "fr" "en" (boot ∅)
  = (inl (FileNotFoundError "File Not Found Error"), boot ∅)
  ∧ ∃ st', __init__ "book.xlsx" "fr" "en" (boot {[ "book.xlsx" := Workbook [] ]})
           = (inr tt, st')
           ∧ _file_path st' = Some "book.xlsx".
Proof.
  split.
  - apply (file_path_checked "missing.xlsx" "fr" "en" (boot ∅)).
    reflexivity.
  - destruct (proj2 (file_path_checked "book.xlsx" "fr" "en"
                       (boot {[ "book.xlsx" := Workbook [] ]})))
      as (st' & Hrun & Hpath & _).
    + vm_compute. eauto.
    + exists st'. by split.
Defined.

(** ** Sheet processor *)

(** C2. [translate_DataFrame] sends to the service exactly the flagged
    items of the sheet (its non-ASCII headers and the non-ASCII texts of
    its cells) that are not keys of the cache, each once.  An item that is
    already a key is not sent, keeps its cached translation, and every
    cell holding it comes out as that cached translation. *)
Theorem dispatch_only_missing
    (service : string → string → string → exn + gmap string string)
    (sched : scheduler) (key : string) (df : DataFrame) (st : state) :
  ∃ out st' sent,
    translate_DataFrame service sched key df st = (inr (key, out), st')
    ∧ calls st' = (calls st ++ sent)
    ∧ NoDup sent
    ∧ (∀ k, k ∈ sent
            ↔ (isascii k = false
               ∧ (k ∈ columns df ∨ ∃ row, row ∈ values df ∧ Str k ∈ row))
              ∧ k ∉ dom (cache st))
    ∧ (∀ k, k ∈ sent ↔ k ∈ flagged_items df ∧ k ∉ dom (cache st))
    ∧ (∀ s t, cache st !! s = Some t →
         (s ∉ sent)
         ∧ cache st' !! s = Some t
         ∧ ∀ i j, cell_at (values df) i j = Some (Str s) →
                  isascii s = false →
                  cell_at (values out) i j = Some (Str t)).
Proof.
  set (st' := dispatched service (pending sched df st) st).
  exists (sheet_out (λ k, cache st' !! k) df), st', (pending sched df st).
  split; [apply translate_DataFrame_run|].
  split; [apply dispatched_frame|].
  split.
  { unfold pending. rewrite (run_order_perm sched). apply NoDup_elements. }
  split.
  { intros k.
    by rewrite elem_of_pending, elem_of_flagged_items, not_elem_of_dom. }
  split.
  { intros k. by rewrite elem_of_pending, not_elem_of_dom. }
  intros s t Hs.
  assert (Hnot : s ∉ pending sched df st).
  { rewrite elem_of_pending. intros [_ ?]. congruence. }
  assert (Hs' : cache st' !! s = Some t).
  { unfold st'. rewrite dispatched_cache. by rewrite decide_False. }
  split; [done|]. split; [done|].
  intros i j Hcell Hasc.
  rewrite cell_at_sheet_out, Hcell. simpl.
  unfold cell_out. simpl. by rewrite Hasc, Hs'.
Qed.

Lemma dispatch_only_missing_witness :
  ∃ out st' sent,
    translate_DataFrame svc_down fifo "Sheet1" df_menu st_cafe
    = (inr ("Sheet1", out), st')
    ∧ calls st' = ([] ++ sent)
    ∧ ("café" ∉ sent)
    ∧ "né" ∈ sent
    ∧ cell_at (values df_menu) 0 0 = Some (Str "café")
    ∧ cell_at (values out) 0 0 = Some (Str "coffee shop").
Proof.
  destruct (dispatch_only_missing svc_down fifo "Sheet1" df_menu st_cafe)
    as (out & st' & sent & Hrun & Hcalls & _ & Hsent & _ & Hcached).
  assert (Hc : cache st_cafe !! "café" = Some "coffee shop")
    by (vm_compute; reflexivity).
  destruct (Hcached "café" "coffee shop" Hc) as (Hnot & _ & Hcell).
  exists out, st', sent.
  split; [exact Hrun|]. split; [exact Hcalls|]. split; [exact Hnot|].
  split.
  { apply Hsent. split.
    - split; [reflexivity|]. left. constructor.
    - apply not_elem_of_dom. vm_compute. reflexivity. }
  split; [reflexivity|].
  apply Hcell; reflexivity.
Defined.

(** C1. What [translate_DataFrame] returns for a flagged item whose
    translation is absent from the cache after the dispatch: a header
    keeps its original name, but a cell comes out as a missing value, not
    as its original text. *)
Theorem failed_lookup_outcome
    (service : string → string → string → exn + gmap string string)
    (sched : scheduler) (key : string) (df : DataFrame) (st : state) :
  ∃ out st',
    translate_DataFrame service sched key df st = (inr (key, out), st')
    ∧ (∀ i h, columns df !! i = Some h → cache st' !! h = None →
              columns out !! i = Some h)
    ∧ (∀ i j s, cell_at (values df) i j = Some (Str s) →
                isascii s = false → cache st' !! s = None →
                ∃ x, cell_at (values out) i j = Some x
                     ∧ isna x = true
                     ∧ x ≠ Str s).
Proof.
  set (st' := dispatched service (pending sched df st) st).
  exists (sheet_out (λ k, cache st' !! k) df), st'.
  split; [apply translate_DataFrame_run|]. split.
  - intros i h Hh Hnone. rewrite columns_sheet_out, Hh. simpl.
    by rewrite Hnone.
  - intros i j s Hcell Hasc Hnone. exists NA.
    split; [|done].
    rewrite cell_at_sheet_out, Hcell. simpl.
    unfold cell_out. simpl. by rewrite Hasc, Hnone.
Qed.

Lemma failed_lookup_outcome_witness :
  ∃ out st',
    translate_DataFrame svc_down fifo "Sheet1" df_menu (boot ∅)
    = (inr ("Sheet1", out), st')
    ∧ columns out !! 0 = Some "né"
    ∧ cell_at (values df_menu) 0 0 = Some (Str "café")
    ∧ ∃ x, cell_at (values out) 0 0 = Some x
           ∧ isna x = true
           ∧ x ≠ Str "café".
Proof.
  destruct (failed_lookup_outcome svc_down fifo "Sheet1" df_menu (boot ∅))
    as (out & st' & Hrun & Hcols & Hcells).
  assert (Hcache : cache st' = ∅).
  { apply (f_equal snd) in Hrun. cbn [snd] in Hrun. rewrite <- Hrun.
    vm_compute. reflexivity. }
  exists out, st'. split; [done|]. split; [|split; [done|]].
  - apply Hcols; [done|]. by rewrite Hcache.
  - apply (Hcells 0 0 "café"); [done|done|]. by rewrite Hcache.
Defined.

(** C10. In every state the pipeline reaches, every key of the cache and
    every text that was sent to the service contains a non-ASCII
    character; consequently the rename map of [translate_DataFrame],
    although built over all columns, leaves every ASCII header as it is. *)
Theorem cache_keys_never_ascii (st : state) :
  reachable st →
  keys_nonascii (cache st)
  ∧ Forall (λ item, isascii item = false) (calls st)
  ∧ ∀ service (sched : scheduler) key df,
      ∃ out st',
        translate_DataFrame service sched key df st = (inr (key, out), st')
        ∧ ∀ i h, columns df !! i = Some h → isascii h = true →
                 columns out !! i = Some h.
Proof.
  intros [Hkeys Hcalls]%reachable_keys_nonascii.
  split; [done|]. split; [done|].
  intros service sched key df.
  destruct (translate_DataFrame_evolves service sched st st key df
              (evolves_refl service st)) as (st' & Hrun & _).
  eexists _, st'. split; [done|].
  intros i h Hh Hasc. rewrite columns_sheet_out, Hh. simpl.
  by rewrite final_lookup_ascii.
Qed.

Lemma cache_keys_never_ascii_witness :
  keys_nonascii
    (cache (translate_excel svc_cafe lifo
              (__init__ "book.xlsx" "fr" "en" (boot files_book)).2).2)
  ∧ Forall (λ item, isascii item = false)
      (calls (translate_excel svc_cafe lifo
                (__init__ "book.xlsx" "fr" "en" (boot files_book)).2).2).
Proof.
  destruct (cache_keys_never_ascii
              (translate_excel svc_cafe lifo
                 (__init__ "book.xlsx" "fr" "en" (boot files_book)).2).2)
    as (Hkeys & Hcalls & _).
  - exists files_book.
    eapply rtc_l; [apply (step_init "book.xlsx" "fr" "en")|].
    eapply rtc_l; [apply (step_excel svc_cafe lifo)|].
    apply rtc_refl.
  - split; [exact Hkeys | exact Hcalls].
Defined.

(** ** Workbook orchestrator *)

(** C3. The claim: every ASCII sheet name, header and cell appears
    unchanged in the output workbook.  The code at a workbook with the
    sheets ["Data"] and ["Données"] and a service that translates
    ["Données"] to ["Data"]: both results carry the name ["Data"], the dict
    of results keeps the later one, and the sheet ["Data"] with its ASCII
    cell ["hello"] is not among the sheets handed to the writer. *)
Theorem ascii_sheet_lost_by_collision :
  files_collide !! "book.xlsx"
  = Some (Workbook [("Data", df_ascii); ("Données", df_fr)])
  ∧ Str "hello" ∈ concat (values df_ascii)
  ∧ (run_pipeline svc_data fifo "book.xlsx" "fr" "en" files_collide).1
    = inr tt
  ∧ fs (run_pipeline svc_data fifo "book.xlsx" "fr" "en" files_collide).2
       !! "translated_book.xlsx"
    = Some (Workbook [("Data", df_fr)])
  ∧ (frames_for_writer svc_data fifo (st_book files_collide)).1
    = inr [("Data", df_fr)]
  ∧ Forall (λ sheet : string * DataFrame,
              Str "hello" ∉ concat (values sheet.2))
           [("Data", df_fr)].
Proof.
  split; [vm_compute; reflexivity|].
  split; [simpl; constructor|].
  split; [vm_compute; reflexivity|].
  split; [vm_compute; reflexivity|].
  split; [vm_compute; reflexivity|].
  constructor; [|constructor]. simpl.
  intros H%list_elem_of_singleton. discriminate.
Qed.

(** C5. [translate_excel] pairs the data of every worksheet with the
    translation of its name when the name is a key of the cache after the
    names were dispatched, and with the name itself otherwise; the sheets
    handed to the writer carry these names.  In particular, for a workbook
    with the sheets ["日本語"] and ["Sheet2"], neither name cached, and a
    service that fails for ["日本語"], the output workbook consists of a
    sheet named ["日本語"] and a sheet named ["Sheet2"], and the failure is
    in the log. *)
Theorem sheet_names_paired
    (service : string → string → string → exn + gmap string string)
    (sched : scheduler) (st : state) (p : string) (wb : workbook) :
  _file_path st = Some p →
  fs st !! p = Some (Workbook wb) →
  ∃ args st1 results st',
    translate_names service sched wb st = (inr args, st1)
    ∧ Forall2
        (λ sheet arg : string * DataFrame,
           arg.1 = match cache st1 !! sheet.1 with
                   | Some t => t
                   | None => sheet.1
                   end
           ∧ arg.2 = sheet.2)
        wb args
    ∧ translate_excel service sched st = (inr tt, st')
    ∧ fs st' !! ("translated_" +:+ p) = Some (Workbook (odict_of_pairs results))
    ∧ Forall2 (λ arg result : string * DataFrame, result.1 = arg.1) args results
    ∧ (∀ df1 df2 e,
         wb = [("日本語", df1); ("Sheet2", df2)] →
         cache st !! "日本語" = None →
         cache st !! "Sheet2" = None →
         service "日本語" (src_lang st) (trgt_lang st) = inl e →
         ∃ out1 out2,
           fs st' !! ("translated_" +:+ p)
           = Some (Workbook [("日本語", out1); ("Sheet2", out2)])
           ∧ (ERROR, "Failed with error: " +:+ exn_str e) ∈ log st'
           ∧ (WARNING, "Failed to translate item: 日本語") ∈ log st').
Proof.
  intros Hp Hwb.
  destruct (translate_names_run service sched wb st)
    as (st1 & Hnames & _ & Hlook & _).
  destruct (translate_excel_run service sched st p wb Hp Hwb)
    as (st2 & Hrun & Hev & Hfail).
  eexists _, st1, (expected_results service st wb), _.
  split; [exact Hnames|].
  split.
  { apply Forall2_fmap_r, Forall_Forall2_diag, Forall_forall.
    intros [k df] _. unfold compose. cbn [fst snd].
    by destruct (cache st1 !! k). }
  split; [exact Hrun|].
  split; [apply lookup_insert_eq|].
  split.
  { unfold expected_results. apply Forall2_fmap, Forall_Forall2_diag,
      Forall_forall.
    intros [k df] Hk. cbn [fst snd]. rewrite Hlook; [done|].
    apply list_elem_of_fmap. by exists (k, df). }
  intros df1 df2 e -> Hjp Hsheet2 He.
  assert (Hout : outcome service (src_lang st) (trgt_lang st) "日本語" = inl e).
  { unfold outcome. by rewrite He. }
  assert (Hres : expected_results service st [("日本語", df1); ("Sheet2", df2)]
                 = [("日本語", sheet_out (final_lookup service st) df1);
                    ("Sheet2", sheet_out (final_lookup service st) df2)]).
  { unfold expected_results. cbn [fmap list_fmap fst snd].
    assert (final_lookup service st "日本語" = None) as ->.
    { unfold final_lookup, tx. by rewrite Hjp, Hout. }
    assert (final_lookup service st "Sheet2" = None) as ->.
    { unfold final_lookup. by rewrite Hsheet2. }
    done. }
  assert (Hnd : NoDup ["日本語"; "Sheet2"]).
  { apply NoDup_cons. split; [|apply NoDup_singleton].
    by intros ?%list_elem_of_singleton. }
  exists (sheet_out (final_lookup service st) df1),
         (sheet_out (final_lookup service st) df2).
  rewrite Hres, odict_of_pairs_NoDup by exact Hnd.
  split; [apply lookup_insert_eq|].
  destruct (Hfail "日本語") with (e := e) as [Herr Hwarn]; try done.
  { cbn. constructor. }
  unfold written. cbn [log add_log set_fs].
  split; apply elem_of_app; by left.
Qed.

Lemma sheet_names_paired_witness :
  ∃ out1 out2 st',
    translate_excel svc_cafe lifo (st_book files_book) = (inr tt, st')
    ∧ fs st' !! "translated_book.xlsx"
      = Some (Workbook [("日本語", out1); ("Sheet2", out2)])
    ∧ (ERROR, "Failed with error: unsupported text") ∈ log st'
    ∧ (WARNING, "Failed to translate item: 日本語") ∈ log st'.
Proof.
  destruct (sheet_names_paired svc_cafe lifo (st_book files_book)
              "book.xlsx" [("日本語", df_menu); ("Sheet2", df_cafe)])
    as (args & st1 & results & st' & _ & _ & Hrun & _ & _ & Hexample).
  - reflexivity.
  - vm_compute. reflexivity.
  - destruct (Hexample df_menu df_cafe (ClientError "unsupported text"))
      as (out1 & out2 & Hfs & Herr & Hwarn).
    + reflexivity.
    + reflexivity.
    + reflexivity.
    + vm_compute. reflexivity.
    + exists out1, out2, st'.
      split; [exact Hrun|]. split; [exact Hfs|].
      split; [exact Herr | exact Hwarn].
Defined.

(** C6. The claim: the workbook is written to a new file named by the
    original file name with the prefix [translated_].  The code hands
    [translated_] followed by the whole [file_path] string to the writer:
    whether it returns or raises, [translate_excel] leaves every other
    path as it was.  So for the path ["data/book.xlsx"] nothing is written
    at ["data/translated_book.xlsx"] nor at ["translated_book.xlsx"]. *)
Theorem output_only_at_prefixed_path
    (service : string → string → string → exn + gmap string string)
    (sched : scheduler) (st : state) (p q : string) :
  _file_path st = Some p →
  q ≠ "translated_" +:+ p →
  fs (translate_excel service sched st).2 !! q = fs st !! q.
Proof.
  intros Hp Hq.
  destruct (translate_excel_cases service sched st)
    as [(e & ->)|(p' & wb & st2 & Hp' & _ & -> & Hev)]; [done|].
  assert (p' = p) as -> by congruence.
  unfold written. cbn [snd fs add_log set_fs].
  rewrite lookup_insert_ne by done.
  by rewrite (ev_fs _ _ _ Hev).
Qed.

Lemma output_only_at_prefixed_path_witness :
  basename "data/book.xlsx" = "book.xlsx"
  ∧ fs st_dir !! "data/book.xlsx" = Some (Workbook [("Sheet1", df_ascii)])
  ∧ fs (translate_excel svc_down fifo st_dir).2 !! "data/translated_book.xlsx"
    = None
  ∧ fs (translate_excel svc_down fifo st_dir).2 !! "translated_book.xlsx"
    = None.
Proof.
  split; [vm_compute; reflexivity|].
  split; [vm_compute; reflexivity|].
  split.
  - rewrite (output_only_at_prefixed_path svc_down fifo st_dir
               "data/book.xlsx" "data/translated_book.xlsx").
    + vm_compute. reflexivity.
    + reflexivity.
    + intros H. vm_compute in H. discriminate H.
  - rewrite (output_only_at_prefixed_path svc_down fifo st_dir
               "data/book.xlsx" "translated_book.xlsx").
    + vm_compute. reflexivity.
    + reflexivity.
    + intros H. vm_compute in H. discriminate H.
Defined.

(** When the output sheet names are pairwise distinct, the sheets written
    by [translate_excel] are, position by position, the loaded sheets:
    each under its output name and holding its translated data. *)
Lemma sheet_order_preserved_distinct
    (service : string → string → string → exn + gmap string string)
    (sched : scheduler) (st : state) (p : string) (wb : workbook) :
  _file_path st = Some p →
  fs st !! p = Some (Workbook wb) →
  NoDup ((λ sheet : string * DataFrame,
            default sheet.1 (final_lookup service st sheet.1)) <$> wb) →
  ∃ out st',
    translate_excel service sched st = (inr tt, st')
    ∧ fs st' !! ("translated_" +:+ p) = Some (Workbook out)
    ∧ Forall2
        (λ sheet written_sheet : string * DataFrame,
           written_sheet.1 = default sheet.1 (final_lookup service st sheet.1)
           ∧ written_sheet.2 = sheet_out (final_lookup service st) sheet.2)
        wb out.
Proof.
  intros Hp Hwb Hnd.
  destruct (translate_excel_run service sched st p wb Hp Hwb)
    as (st2 & Hrun & Hev & _).
  eexists _, _. split; [exact Hrun|].
  split; [apply lookup_insert_eq|].
  rewrite odict_of_pairs_NoDup.
  - unfold expected_results.
    apply Forall2_fmap_r, Forall_Forall2_diag, Forall_forall.
    by intros [k df] _.
  - unfold expected_results. by rewrite <- list_fmap_compose.
Qed.

Lemma sheet_order_preserved_distinct_example :
  ∃ out st',
    translate_excel svc_cafe lifo (st_book files_book) = (inr tt, st')
    ∧ fs st' !! "translated_book.xlsx" = Some (Workbook out)
    ∧ out.*1 = ["日本語"; "Sheet2"].
Proof.
  destruct (sheet_order_preserved_distinct svc_cafe lifo (st_book files_book)
              "book.xlsx" [("日本語", df_menu); ("Sheet2", df_cafe)])
    as (out & st' & Hrun & Hfs & Hall).
  - reflexivity.
  - vm_compute. reflexivity.
  - apply (bool_decide_unpack _). vm_compute. exact I.
  - exists out, st'. split; [exact Hrun|]. split; [exact Hfs|].
    apply Forall2_cons_inv_l in Hall as (o1 & out' & [H1 _] & Hall & ->).
    apply Forall2_cons_inv_l in Hall as (o2 & out'' & [H2 _] & Hall & ->).
    apply Forall2_nil_inv_l in Hall as ->.
    cbn [fmap list_fmap]. rewrite H1, H2. vm_compute. reflexivity.
Defined.

(** C9. The claim: the sheets are written in exactly the order in which
    they were loaded.  The code at a workbook with the sheets ["Data"],
    ["Notes"], ["Données"] and a service that translates ["Données"] to
    ["Data"]: the dict of results keeps one entry per name, so the data of
    the sheet loaded third is written first, under ["Data"], before the
    second sheet, and two sheets are written for three loaded. *)
Theorem sheet_order_broken_by_collision :
  files_three !! "book.xlsx"
  = Some (Workbook [("Data", df_ascii); ("Notes", df_notes); ("Données", df_fr)])
  ∧ (run_pipeline svc_data fifo "book.xlsx" "fr" "en" files_three).1 = inr tt
  ∧ fs (run_pipeline svc_data fifo "book.xlsx" "fr" "en" files_three).2
       !! "translated_book.xlsx"
    = Some (Workbook [("Data", df_fr); ("Notes", df_notes)]).
Proof. repeat split; vm_compute; reflexivity. Qed.

(** ** Determinism *)

(** C8. Under a service that answers every request with the same text in
    each run, two runs of the pipeline on the same input write the same
    workbook, whatever the order in which the thread pool runs its tasks
    and whatever else the responses contain; and so does a further run on
    the translator the first run left, with its filled cache.  The sheets
    agree in names, headers, cells and order. *)
Theorem pipeline_deterministic
    (service1 service2 : string → string → string → exn + gmap string string)
    (sched1 sched2 : scheduler)
    (tr : string → string → string → string)
    (st : state) (p : string) (wb : workbook) :
  succeeds_with service1 tr →
  succeeds_with service2 tr →
  _file_path st = Some p →
  fs st !! p = Some (Workbook wb) →
  ∃ out st1 st2 st3,
    translate_excel service1 sched1 st = (inr tt, st1)
    ∧ translate_excel service2 sched2 st = (inr tt, st2)
    ∧ translate_excel service2 sched2 st1 = (inr tt, st3)
    ∧ fs st1 !! ("translated_" +:+ p) = Some (Workbook out)
    ∧ fs st2 !! ("translated_" +:+ p) = Some (Workbook out)
    ∧ fs st3 !! ("translated_" +:+ p) = Some (Workbook out)
    ∧ fs st2 = fs st1
    ∧ fs st3 = fs st1.
Proof.
  intros Hok1 Hok2 Hp Hwb.
  destruct (translate_excel_run service1 sched1 st p wb Hp Hwb)
    as (s1 & Hrun1 & Hev1 & _).
  destruct (translate_excel_run service2 sched2 st p wb Hp Hwb)
    as (s2 & Hrun2 & Hev2 & _).
  set (out := odict_of_pairs (expected_results service1 st wb)) in *.
  assert (Hsame : expected_results service2 st wb
                  = expected_results service1 st wb).
  { apply expected_results_ext. intros k.
    by rewrite (final_lookup_succeeds service1 tr),
      (final_lookup_succeeds service2 tr). }
  rewrite Hsame in Hrun2. fold out in Hrun2.
  assert (Hp1 : _file_path (written p out s1) = Some p).
  { cbn. by rewrite (ev_file_path _ _ _ Hev1). }
  assert (Hwb1 : fs (written p out s1) !! p = Some (Workbook wb)).
  { cbn [fs written add_log set_fs].
    rewrite lookup_insert_ne by apply translated_path_fresh.
    by rewrite (ev_fs _ _ _ Hev1). }
  destruct (translate_excel_run service2 sched2 (written p out s1) p wb Hp1 Hwb1)
    as (s3 & Hrun3 & Hev3 & _).
  assert (Hagain : expected_results service2 (written p out s1) wb
                   = expected_results service1 st wb).
  { apply expected_results_ext. intros k.
    by apply (final_lookup_rerun service1 service2 tr). }
  rewrite Hagain in Hrun3. fold out in Hrun3.
  exists out, (written p out s1), (written p out s2), (written p out s3).
  split; [exact Hrun1|]. split; [exact Hrun2|]. split; [exact Hrun3|].
  split; [apply lookup_insert_eq|].
  split; [apply lookup_insert_eq|].
  split; [apply lookup_insert_eq|].
  pose proof (ev_fs _ _ _ Hev1) as E1.
  pose proof (ev_fs _ _ _ Hev2) as E2.
  pose proof (ev_fs _ _ _ Hev3) as E3.
  unfold written in *. cbn [fs add_log set_fs] in *.
  rewrite E3, E2, E1.
  split; [done|]. apply insert_insert_eq.
Qed.

Lemma pipeline_deterministic_witness :
  ∃ out st1 st2 st3,
    translate_excel svc_tag fifo (st_book files_book) = (inr tt, st1)
    ∧ translate_excel svc_tag_verbose lifo (st_book files_book) = (inr tt, st2)
    ∧ translate_excel svc_tag_verbose lifo st1 = (inr tt, st3)
    ∧ fs st1 !! "translated_book.xlsx" = Some (Workbook out)
    ∧ fs st2 !! "translated_book.xlsx" = Some (Workbook out)
    ∧ fs st3 !! "translated_book.xlsx" = Some (Workbook out)
    ∧ fs st2 = fs st1
    ∧ fs st3 = fs st1.
Proof.
  apply (pipeline_deterministic svc_tag svc_tag_verbose fifo lifo tr_tag
           (st_book files_book) "book.xlsx"
           [("日本語", df_menu); ("Sheet2", df_cafe)]).
  - intros text src trgt. eexists. split; [reflexivity|].
    apply lookup_singleton_eq.
  - intros text src trgt. eexists. split; [reflexivity|].
    apply lookup_insert_eq.
  - reflexivity.
  - vm_compute. reflexivity.
Defined.

(** * Further properties of the code *)

(** ** The remote translator *)

(** X1. When the service answers with a text, [translate] stores it under
    the item, replacing whatever the cache held for it, leaves every other
    key and the log as they were, and records one request. *)
Theorem translate_success_overwrites
    (service : string → string → string → exn + gmap string string)
    (item : string) (st : state) (resp : gmap string string) (text : string) :
  service item (src_lang st) (trgt_lang st) = inr resp →
  resp !! "TranslatedText" = Some text →
  ∃ st',
    translate service item st = (inr tt, st')
    ∧ cache st' !! item = Some text
    ∧ (∀ k, k ≠ item → cache st' !! k = cache st !! k)
    ∧ log st' = log st
    ∧ calls st' = (calls st ++ [item])
    ∧ fs st' = fs st.
Proof.
  intros Hresp Htext. exists (translated service st item).
  split; [apply translate_run|].
  assert (Hout : outcome service (src_lang st) (trgt_lang st) item = inr text).
  { unfold outcome. by rewrite Hresp, Htext. }
  split.
  { rewrite translated_cache, decide_True by done. unfold tx. by rewrite Hout. }
  split.
  { intros k Hk. by rewrite translated_cache, decide_False. }
  split.
  { rewrite translated_log, Hout. apply app_nil_r. }
  split; apply translated_frame.
Qed.

Lemma translate_success_overwrites_witness :
  cache st_cafe !! "café" = Some "coffee shop"
  ∧ ∃ st',
      translate svc_bar "café" st_cafe = (inr tt, st')
      ∧ cache st' !! "café" = Some "bar"
      ∧ log st' = []
      ∧ calls st' = ["café"].
Proof.
  split; [vm_compute; reflexivity|].
  destruct (translate_success_overwrites svc_bar "café" st_cafe
              {[ "TranslatedText" := "bar" ]} "bar")
    as (st' & Hrun & Hcache & _ & Hlog & Hcalls & _).
  - vm_compute. reflexivity.
  - vm_compute. reflexivity.
  - exists st'. split; [exact Hrun|]. split; [exact Hcache|].
    split; [exact Hlog | exact Hcalls].
Defined.

(** X2. A response without the ['TranslatedText'] field is handled like a
    failed request: the [KeyError] is caught, the error record names the
    missing field, the warning names the item, and the cache is left as it
    was. *)
Theorem translate_malformed_response
    (service : string → string → string → exn + gmap string string)
    (item : string) (st : state) (resp : gmap string string) :
  service item (src_lang st) (trgt_lang st) = inr resp →
  resp !! "TranslatedText" = None →
  ∃ st',
    translate service item st = (inr tt, st')
    ∧ cache st' = cache st
    ∧ log st' = (log st ++ [(ERROR, "Failed with error: 'TranslatedText'");
                            (WARNING, "Failed to translate item: " +:+ item)])
    ∧ calls st' = (calls st ++ [item]).
Proof.
  intros Hresp Hnone. exists (translated service st item).
  split; [apply translate_run|].
  assert (Hout : outcome service (src_lang st) (trgt_lang st) item
                 = inl (KeyError "TranslatedText")).
  { unfold outcome. by rewrite Hresp, Hnone. }
  split.
  { unfold translated. by rewrite Hout. }
  split.
  { by rewrite translated_log, Hout. }
  apply translated_frame.
Qed.

Lemma translate_malformed_response_witness :
  ∃ st',
    translate svc_malformed "café" (boot ∅) = (inr tt, st')
    ∧ cache st' = ∅
    ∧ log st' = [(ERROR, "Failed with error: 'TranslatedText'");
                 (WARNING, "Failed to translate item: café")]
    ∧ calls st' = ["café"].
Proof.
  apply (translate_malformed_response svc_malformed "café" (boot ∅)
           {[ "SourceLanguageCode" := "fr" ]}).
  - reflexivity.
  - vm_compute. reflexivity.
Defined.

(** ** The dispatcher *)

Lemma failure_records_frame service st st' item :
  src_lang st' = src_lang st → trgt_lang st' = trgt_lang st →
  failure_records service st' item = failure_records service st item.
Proof. intros Hs Ht. unfold failure_records. by rewrite Hs, Ht. Qed.

(** The log after a dispatch: the records of the failed items, in the
    order the tasks ran. *)
Lemma dispatched_log service l st :
  log (dispatched service l st)
  = log st ++ flat_map (failure_records service st) l.
Proof.
  revert st. induction l as [|item l IH]; intros st.
  - simpl. by rewrite app_nil_r.
  - change (dispatched service (item :: l) st)
      with (dispatched service l (translated service st item)).
    rewrite IH, translated_log. simpl. rewrite <- app_assoc. f_equal.
    f_equal. apply flat_map_ext. intros k.
    destruct (translated_frame service st item) as (_ & Hs & Ht & _).
    by apply failure_records_frame.
Qed.

(** X3. [translate_async] never raises, and the order in which the pool
    runs the tasks does not matter: under any two schedules the cache, the
    files and the translator's fields come out equal, and the requests made
    and the log records are the same up to their order. *)
Theorem translate_async_order_irrelevant
    (service : string → string → string → exn + gmap string string)
    (sched1 sched2 : scheduler) (items : list string) (st : state) :
  ∃ st1 st2,
    translate_async service sched1 items st = (inr tt, st1)
    ∧ translate_async service sched2 items st = (inr tt, st2)
    ∧ cache st1 = cache st2
    ∧ calls st1 ≡ₚ calls st2
    ∧ log st1 ≡ₚ log st2
    ∧ fs st1 = fs st2
    ∧ _file_path st1 = _file_path st2.
Proof.
  exists (dispatched service (sched1 items) st),
         (dispatched service (sched2 items) st).
  split; [apply translate_async_run|]. split; [apply translate_async_run|].
  assert (Hperm : sched1 items ≡ₚ sched2 items).
  { by rewrite !run_order_perm. }
  destruct (dispatched_frame service (sched1 items) st)
    as (Hp1 & _ & _ & Hf1 & Hc1).
  destruct (dispatched_frame service (sched2 items) st)
    as (Hp2 & _ & _ & Hf2 & Hc2).
  split.
  { apply map_eq. intros k. rewrite !dispatched_cache.
    destruct (decide (k ∈ sched1 items)) as [Hin|Hnin].
    - rewrite decide_True; [done|]. by rewrite <- Hperm.
    - rewrite decide_False; [done|]. by rewrite <- Hperm. }
  split.
  { rewrite Hc1, Hc2. by apply Permutation_app_head. }
  split.
  { rewrite !dispatched_log. apply Permutation_app_head.
    by apply Permutation_flat_map. }
  split; congruence.
Qed.

(** ** The cache check *)

(** X4. [check_cache] returns, without repetition, exactly the items that
    are not keys of the cache, whatever repetitions the items had, and
    leaves the state as it was. *)
Theorem check_cache_missing_keys (items : list string) (st : state) :
  ∃ missing,
    check_cache items st = (inr missing, st)
    ∧ NoDup missing
    ∧ ∀ k, k ∈ missing ↔ k ∈ items ∧ cache st !! k = None.
Proof.
  eexists. split; [apply check_cache_run|].
  split; [apply NoDup_elements|].
  intros k.
  by rewrite elem_of_elements, elem_of_difference, elem_of_list_to_set,
    not_elem_of_dom.
Qed.

(** ** The sheet processor *)

Lemma pending_nil (sched : scheduler) df st :
  (∀ k, k ∈ flagged_items df → is_Some (cache st !! k)) →
  pending sched df st = [].
Proof.
  intros Hall. unfold pending.
  assert (flagged_items df ∖ dom (cache st) = ∅) as ->.
  { apply set_eq. intros k.
    rewrite elem_of_difference, elem_of_dom. split.
    - intros [Hk Hn]. destruct Hn. by apply Hall.
    - by intros ?%not_elem_of_empty. }
  rewrite elements_empty.
  apply Permutation_nil_r. apply run_order_perm.
Qed.

(** X5. When every flagged item of the sheet is already a key of the
    cache (in particular when the sheet has no flagged item: an empty
    sheet, a sheet of numbers and ASCII text), [translate_DataFrame] makes
    no request and leaves the whole state as it was; the sheet it returns
    is computed from the cache alone. *)
Theorem sheet_all_cached
    (service : string → string → string → exn + gmap string string)
    (sched : scheduler) (key : string) (df : DataFrame) (st : state) :
  (∀ k, k ∈ flagged_items df → is_Some (cache st !! k)) →
  translate_DataFrame service sched key df st
  = (inr (key, sheet_out (λ k, cache st !! k) df), st).
Proof.
  intros Hall. rewrite translate_DataFrame_run.
  by rewrite pending_nil.
Qed.

Lemma sheet_all_cached_witness :
  translate_DataFrame svc_down lifo "Sheet1" df_cafe st_cafe
  = (inr ("Sheet1", mkDataFrame ["name"] [[Str "coffee shop"; Num 2]]),
     st_cafe).
Proof.
  rewrite (sheet_all_cached svc_down lifo "Sheet1" df_cafe st_cafe).
  - vm_compute. reflexivity.
  - intros k Hk. apply elem_of_flagged_items in Hk as [Hasc [Hk|Hk]].
    + apply list_elem_of_singleton in Hk. subst k. discriminate.
    + destruct Hk as (row & Hrow & Hk).
      apply list_elem_of_singleton in Hrow. subst row.
      apply elem_of_cons in Hk as [Hk|Hk].
      * injection Hk as ->. vm_compute. eauto.
      * apply list_elem_of_singleton in Hk. discriminate.
Defined.

(** X6. [translate_DataFrame] returns the sheet name it was given and a
    sheet of the same shape: as many headers, as many rows, and every row
    as long as before. *)
Theorem sheet_shape_preserved
    (service : string → string → string → exn + gmap string string)
    (sched : scheduler) (key : string) (df : DataFrame) (st : state) :
  ∃ out st',
    translate_DataFrame service sched key df st = (inr (key, out), st')
    ∧ length (columns out) = length (columns df)
    ∧ Forall2 (λ row row' : list cell, length row' = length row)
              (values df) (values out).
Proof.
  eexists _, _. split; [apply translate_DataFrame_run|].
  unfold sheet_out, grid_map. cbn [columns values].
  split; [apply length_fmap|].
  apply Forall2_fmap_r, Forall_Forall2_diag, Forall_forall.
  intros row _. unfold compose. apply length_fmap.
Qed.

(** X7. The success path of [translate_DataFrame]: a flagged item that is
    not cached and that the service translates is sent, enters the cache
    with its translation, and comes out translated in every cell and every
    header that holds it. *)
Theorem uncached_item_translated
    (service : string → string → string → exn + gmap string string)
    (sched : scheduler) (key : string) (df : DataFrame) (st : state)
    (k : string) (resp : gmap string string) (text : string) :
  k ∈ flagged_items df →
  cache st !! k = None →
  service k (src_lang st) (trgt_lang st) = inr resp →
  resp !! "TranslatedText" = Some text →
  ∃ out st' sent,
    translate_DataFrame service sched key df st = (inr (key, out), st')
    ∧ calls st' = (calls st ++ sent)
    ∧ k ∈ sent
    ∧ cache st' !! k = Some text
    ∧ (∀ i j, cell_at (values df) i j = Some (Str k) →
              cell_at (values out) i j = Some (Str text))
    ∧ (∀ i, columns df !! i = Some k → columns out !! i = Some text).
Proof.
  intros Hk Hnone Hresp Htext.
  set (st' := dispatched service (pending sched df st) st).
  exists (sheet_out (λ k, cache st' !! k) df), st', (pending sched df st).
  split; [apply translate_DataFrame_run|].
  split; [apply dispatched_frame|].
  assert (Hin : k ∈ pending sched df st) by by apply elem_of_pending.
  split; [exact Hin|].
  assert (Hc : cache st' !! k = Some text).
  { unfold st'. rewrite dispatched_cache, decide_True by done.
    unfold tx, outcome. by rewrite Hresp, Htext. }
  split; [exact Hc|].
  pose proof (flagged_items_nonascii k df Hk) as Hasc.
  split.
  - intros i j Hcell. rewrite cell_at_sheet_out, Hcell. simpl.
    unfold cell_out. simpl. by rewrite Hasc, Hc.
  - intros i Hh. rewrite columns_sheet_out, Hh. simpl. by rewrite Hc.
Qed.

Lemma uncached_item_translated_witness :
  ∃ out st' sent,
    translate_DataFrame svc_cafe lifo "Sheet1" df_menu (boot ∅)
    = (inr ("Sheet1", out), st')
    ∧ calls st' = ([] ++ sent)
    ∧ "café" ∈ sent
    ∧ cache st' !! "café" = Some "coffee shop"
    ∧ cell_at (values out) 0 0 = Some (Str "coffee shop").
Proof.
  destruct (uncached_item_translated svc_cafe lifo "Sheet1" df_menu (boot ∅)
              "café" {[ "TranslatedText" := "coffee shop" ]} "coffee shop")
    as (out & st' & sent & Hrun & Hcalls & Hin & Hc & Hcells & _).
  - apply elem_of_flagged_items. split; [reflexivity|].
    right. exists [Str "café"; Num 3]. split; constructor.
  - reflexivity.
  - vm_compute. reflexivity.
  - vm_compute. reflexivity.
  - exists out, st', sent.
    split; [exact Hrun|]. split; [exact Hcalls|]. split; [exact Hin|].
    split; [exact Hc|]. apply Hcells. reflexivity.
Defined.

(** X8. After [translate_DataFrame], a flagged item of the sheet is
    missing from the cache exactly when it was missing before and its
    request failed (the service raised, or its response had no text). *)
Theorem flagged_item_missing_iff_failed
    (service : string → string → string → exn + gmap string string)
    (sched : scheduler) (key : string) (df : DataFrame) (st : state)
    (k : string) :
  k ∈ flagged_items df →
  ∃ out st',
    translate_DataFrame service sched key df st = (inr (key, out), st')
    ∧ (cache st' !! k = None
       ↔ cache st !! k = None
         ∧ ∃ e, outcome service (src_lang st) (trgt_lang st) k = inl e).
Proof.
  intros Hk. eexists _, _. split; [apply translate_DataFrame_run|].
  rewrite dispatched_cache. unfold tx.
  destruct (cache st !! k) as [v|] eqn:Hc.
  - rewrite decide_False.
    + split; [done|]. by intros [? _].
    + rewrite elem_of_pending. intros [_ ?]. congruence.
  - rewrite decide_True by (apply elem_of_pending; done).
    destruct (outcome service (src_lang st) (trgt_lang st) k) as [e|t].
    + split; [eauto|done].
    + split; [done|]. by intros [_ [e ?]].
Qed.

Lemma flagged_item_missing_iff_failed_witness :
  ∃ out st',
    translate_DataFrame svc_bar fifo "Sheet1" df_menu (boot ∅)
    = (inr ("Sheet1", out), st')
    ∧ (cache st' !! "né" = None
       ↔ cache (boot ∅) !! "né" = None
         ∧ ∃ e, outcome svc_bar "" "" "né" = inl e).
Proof.
  apply (flagged_item_missing_iff_failed svc_bar fifo "Sheet1" df_menu (boot ∅) "né").
  apply elem_of_flagged_items. split; [reflexivity|].
  left. constructor.
Defined.

(** X9. Every failed item of a sheet is reported: for each flagged item
    that was not cached and whose request failed, the log after
    [translate_DataFrame] holds the error record and the warning naming
    the item.  The records added are those of the failed items and nothing
    else; when no request fails the log is as it was. *)
Theorem sheet_failures_logged
    (service : string → string → string → exn + gmap string string)
    (sched : scheduler) (key : string) (df : DataFrame) (st : state) :
  ∃ out st' added,
    translate_DataFrame service sched key df st = (inr (key, out), st')
    ∧ log st' = (log st ++ added)
    ∧ (∀ k e, k ∈ flagged_items df → cache st !! k = None →
              outcome service (src_lang st) (trgt_lang st) k = inl e →
              (ERROR, "Failed with error: " +:+ exn_str e) ∈ added
              ∧ (WARNING, "Failed to translate item: " +:+ k) ∈ added)
    ∧ (∀ r, r ∈ added →
            ∃ k e, k ∈ flagged_items df ∧ cache st !! k = None
                   ∧ outcome service (src_lang st) (trgt_lang st) k = inl e
                   ∧ (r = (ERROR, "Failed with error: " +:+ exn_str e)
                      ∨ r = (WARNING, "Failed to translate item: " +:+ k))).
Proof.
  eexists _, _, _. split; [apply translate_DataFrame_run|].
  split; [apply dispatched_log|].
  split.
  - intros k e Hk Hnone He.
    assert (Hin : k ∈ pending sched df st) by by apply elem_of_pending.
    split; apply list_elem_of_In, in_flat_map; exists k;
      (split; [by apply list_elem_of_In|]);
      unfold failure_records; rewrite He; simpl; auto.
  - intros r Hr. apply list_elem_of_In, in_flat_map in Hr as (k & Hk & Hr).
    apply list_elem_of_In, elem_of_pending in Hk as [Hk Hnone].
    unfold failure_records in Hr.
    destruct (outcome service (src_lang st) (trgt_lang st) k) as [e|t] eqn:He;
      [|by destruct Hr].
    exists k, e. split; [done|]. split; [done|]. split; [done|].
    destruct Hr as [<-|[<-|[]]]; auto.
Qed.

Lemma sheet_failures_logged_witness :
  ∃ out st' added,
    translate_DataFrame svc_bar fifo "Sheet1" df_menu (boot ∅)
    = (inr ("Sheet1", out), st')
    ∧ log st' = ([] ++ added)
    ∧ (ERROR, "Failed with error: unsupported text") ∈ added
    ∧ (WARNING, "Failed to translate item: né") ∈ added.
Proof.
  destruct (sheet_failures_logged svc_bar fifo "Sheet1" df_menu (boot ∅))
    as (out & st' & added & Hrun & Hlog & Hfail & _).
  destruct (Hfail "né" (ClientError "unsupported text")) as [Herr Hwarn].
  - apply elem_of_flagged_items. split; [reflexivity|]. left. constructor.
  - reflexivity.
  - vm_compute. reflexivity.
  - exists out, st', added.
    split; [exact Hrun|]. split; [exact Hlog|].
    split; [exact Herr | exact Hwarn].
Defined.

(** X10. Processing the same sheet a second time, right after the first
    pass and under any schedule, sends exactly the flagged items whose
    first request failed (nothing that was cached or translated is sent
    again), and returns the same sheet and the same cache as the first
    pass. *)
Theorem second_pass_resends_failures
    (service : string → string → string → exn + gmap string string)
    (sched1 sched2 : scheduler) (key : string) (df : DataFrame) (st : state) :
  ∃ out st' st'' sent2,
    translate_DataFrame service sched1 key df st = (inr (key, out), st')
    ∧ translate_DataFrame service sched2 key df st' = (inr (key, out), st'')
    ∧ calls st'' = (calls st' ++ sent2)
    ∧ (∀ k, k ∈ sent2
            ↔ k ∈ flagged_items df ∧ cache st !! k = None
              ∧ ∃ e, outcome service (src_lang st) (trgt_lang st) k = inl e)
    ∧ cache st'' = cache st'.
Proof.
  destruct (translate_DataFrame_evolves service sched1 st st key df
              (evolves_refl service st)) as (st' & Hrun1 & Hev1 & _).
  destruct (translate_DataFrame_evolves service sched2 st st' key df Hev1)
    as (st'' & Hrun2 & _).
  pose proof Hrun1 as Hst'. rewrite translate_DataFrame_run in Hst'.
  apply (f_equal snd) in Hst'. cbn [snd] in Hst'.
  pose proof Hrun2 as Hst''. rewrite translate_DataFrame_run in Hst''.
  apply (f_equal snd) in Hst''. cbn [snd] in Hst''.
  assert (Hmiss : ∀ k, k ∈ flagged_items df →
            (cache st' !! k = None
             ↔ cache st !! k = None
               ∧ ∃ e, outcome service (src_lang st) (trgt_lang st) k = inl e)).
  { intros k Hk. rewrite <- Hst', dispatched_cache. unfold tx.
    destruct (cache st !! k) as [v|] eqn:Hc.
    - rewrite decide_False.
      + split; [done|]. by intros [? _].
      + rewrite elem_of_pending. intros [_ ?]. congruence.
    - rewrite decide_True by (apply elem_of_pending; done).
      destruct (outcome service (src_lang st) (trgt_lang st) k) as [e|t].
      + split; [eauto|done].
      + split; [done|]. by intros [_ [e ?]]. }
  exists (sheet_out (final_lookup service st) df), st', st'',
         (pending sched2 df st').
  split; [exact Hrun1|]. split; [exact Hrun2|].
  split; [rewrite <- Hst''; apply dispatched_frame|].
  split.
  - intros k. rewrite elem_of_pending. split.
    + intros [Hk Hnone]. split; [done|]. by apply Hmiss.
    + intros (Hk & Hnone & He). split; [done|]. by apply Hmiss.
  - rewrite <- Hst''. apply map_eq. intros k. rewrite dispatched_cache.
    case_decide as Hin; [|done].
    apply elem_of_pending in Hin as [Hk Hnone].
    destruct (proj1 (Hmiss k Hk) Hnone) as (_ & e & He).
    rewrite (tx_evolves service st st' k Hev1). unfold tx. by rewrite He.
Qed.

(** ** The cache over the pipeline *)

(** X11. The pipeline never removes or changes an entry of the cache:
    after [translate_DataFrame], and after [translate_excel] whether it
    returns or raises, every key the cache held is still there with the
    same translation. *)
Theorem cache_only_grows
    (service : string → string → string → exn + gmap string string)
    (sched : scheduler) (st : state) :
  (∀ key df, cache st ⊆ cache (translate_DataFrame service sched key df st).2)
  ∧ cache st ⊆ cache (translate_excel service sched st).2.
Proof.
  split.
  - intros key df.
    destruct (translate_DataFrame_evolves service sched st st key df
                (evolves_refl service st)) as (st' & -> & Hev & _).
    apply (ev_cache _ _ _ Hev).
  - destruct (translate_excel_cases service sched st)
      as [(e & ->)|(p & wb & st2 & _ & _ & -> & Hev)]; [done|].
    apply (ev_cache _ _ _ Hev).
Qed.

(** ** The workbook orchestrator *)

(** X12. Failures of loading are not caught: when the translator has no
    path, when the file has disappeared, or when it is not a workbook,
    [translate_excel] raises the error of [open_excel] and leaves the
    state as it was: no request, no log record, nothing written. *)
Theorem load_failure_propagates
    (service : string → string → string → exn + gmap string string)
    (sched : scheduler) (st : state) :
  (_file_path st = None →
     translate_excel service sched st = (inl (AttributeError "_file_path"), st))
  ∧ (∀ p, _file_path st = Some p → fs st !! p = None →
       open_excel st = (inl (FileNotFoundError p), st)
       ∧ translate_excel service sched st = (inl (FileNotFoundError p), st))
  ∧ (∀ p, _file_path st = Some p → fs st !! p = Some Other →
       open_excel st = (inl (ReadError p), st)
       ∧ translate_excel service sched st = (inl (ReadError p), st)).
Proof.
  unfold translate_excel, open_excel, file_path_getter. run_monad.
  split; [|split].
  - by intros ->.
  - intros p -> ->. done.
  - intros p -> ->. done.
Qed.

Lemma load_failure_propagates_witness :
  translate_excel svc_cafe fifo (boot files_book)
  = (inl (AttributeError "_file_path"), boot files_book)
  ∧ translate_excel svc_cafe fifo (st_book ∅)
    = (inl (FileNotFoundError "book.xlsx"), st_book ∅)
  ∧ translate_excel svc_cafe fifo (st_book files_other)
    = (inl (ReadError "book.xlsx"), st_book files_other).
Proof.
  split; [|split].
  - apply (load_failure_propagates svc_cafe fifo (boot files_book)).
    reflexivity.
  - apply (load_failure_propagates svc_cafe fifo (st_book ∅)).
    + reflexivity.
    + reflexivity.
  - apply (load_failure_propagates svc_cafe fifo (st_book files_other)).
    + reflexivity.
    + vm_compute. reflexivity.
Defined.

(** X13. Whether it returns or raises, [translate_excel] leaves the input
    file, the translator's path and its language codes as they were, and
    keeps every earlier log record. *)
Theorem translate_excel_keeps_input
    (service : string → string → string → exn + gmap string string)
    (sched : scheduler) (st : state) (p : string) :
  _file_path st = Some p →
  fs (translate_excel service sched st).2 !! p = fs st !! p
  ∧ _file_path (translate_excel service sched st).2 = Some p
  ∧ src_lang (translate_excel service sched st).2 = src_lang st
  ∧ trgt_lang (translate_excel service sched st).2 = trgt_lang st
  ∧ log st `prefix_of` log (translate_excel service sched st).2.
Proof.
  intros Hp.
  destruct (translate_excel_cases service sched st)
    as [(e & ->)|(p' & wb & st2 & Hp' & _ & -> & Hev)]; [done|].
  assert (p' = p) as -> by congruence.
  unfold written.
  cbn [snd fs _file_path src_lang trgt_lang log add_log set_fs].
  split.
  { rewrite lookup_insert_ne by apply translated_path_fresh.
    by rewrite (ev_fs _ _ _ Hev). }
  split; [by rewrite (ev_file_path _ _ _ Hev)|].
  split; [apply (ev_src _ _ _ Hev)|].
  split; [apply (ev_trgt _ _ _ Hev)|].
  etrans; [apply (ev_log _ _ _ Hev)|]. by apply prefix_app_r.
Qed.

Lemma translate_excel_keeps_input_witness :
  fs (translate_excel svc_down lifo (st_book files_book)).2 !! "book.xlsx"
  = Some (Workbook [("日本語", df_menu); ("Sheet2", df_cafe)])
  ∧ _file_path (translate_excel svc_down lifo (st_book files_book)).2
    = Some "book.xlsx".
Proof.
  destruct (translate_excel_keeps_input svc_down lifo (st_book files_book)
              "book.xlsx") as (Hfs & Hpath & _).
  - reflexivity.
  - split; [|exact Hpath]. rewrite Hfs. vm_compute. reflexivity.
Defined.

(** *** The dict of results *)

Lemma odict_setitem_keys {V} (k : string) (v : V) (d : list (string * V)) :
  (odict_setitem k v d).*1 = if decide (k ∈ d.*1) then d.*1 else d.*1 ++ [k].
Proof.
  unfold odict_setitem. case_decide.
  - rewrite <- list_fmap_compose. apply list_fmap_ext.
    intros i [k' v'] _. simpl. by case_decide.
  - by rewrite fmap_app.
Qed.

Lemma odict_setitem_same {V} (k : string) (v : V) (d : list (string * V)) :
  (k, v) ∈ odict_setitem k v d.
Proof.
  unfold odict_setitem. case_decide as Hk.
  - apply list_elem_of_fmap in Hk as ([k' v0] & -> & Hin).
    apply list_elem_of_fmap. exists (k', v0). simpl.
    by rewrite decide_True.
  - apply elem_of_app. right. constructor.
Qed.

Lemma odict_setitem_other {V} (k k' : string) (v v' : V) (d : list (string * V)) :
  k' ≠ k → (k, v) ∈ d → (k, v) ∈ odict_setitem k' v' d.
Proof.
  intros Hne Hin. unfold odict_setitem. case_decide.
  - apply list_elem_of_fmap. exists (k, v). simpl.
    by rewrite decide_False.
  - apply elem_of_app. by left.
Qed.

Lemma odict_fold_keys {V} (pairs acc : list (string * V)) :
  NoDup acc.*1 →
  NoDup (foldl (λ d kv, odict_setitem kv.1 kv.2 d) acc pairs).*1
  ∧ (∀ k, k ∈ (foldl (λ d kv, odict_setitem kv.1 kv.2 d) acc pairs).*1
          ↔ k ∈ acc.*1 ∨ k ∈ pairs.*1)
  ∧ (length (foldl (λ d kv, odict_setitem kv.1 kv.2 d) acc pairs)
     ≤ length acc + length pairs)%nat.
Proof.
  revert acc. induction pairs as [|[k v] pairs IH]; intros acc Hnd.
  - simpl. split; [done|]. split; [|lia].
    intros k. rewrite elem_of_nil. tauto.
  - cbn [foldl fst snd].
    destruct (IH (odict_setitem k v acc)) as (Hnd' & Hin & Hlen).
    { rewrite odict_setitem_keys. case_decide as Hk; [done|].
      apply NoDup_app. split; [done|]. split; [|apply NoDup_singleton].
      intros x Hx ->%list_elem_of_singleton. done. }
    split; [done|]. split.
    + intros x. rewrite Hin, odict_setitem_keys. csimpl.
      rewrite elem_of_cons. case_decide as Hk.
      * split; [tauto|]. intros [?|[->|?]]; auto.
      * rewrite elem_of_app, list_elem_of_singleton. tauto.
    + etrans; [exact Hlen|].
      assert (length (odict_setitem k v acc) ≤ S (length acc))%nat.
      { rewrite <- (length_fmap fst (odict_setitem k v acc)),
          odict_setitem_keys.
        case_decide; rewrite ?length_app, !length_fmap; simpl; lia. }
      simpl. lia.
Qed.

Lemma odict_fold_keeps {V} (pairs acc : list (string * V)) k v :
  k ∉ pairs.*1 → (k, v) ∈ acc →
  (k, v) ∈ foldl (λ d kv, odict_setitem kv.1 kv.2 d) acc pairs.
Proof.
  revert acc. induction pairs as [|[k' v'] pairs IH]; intros acc Hk Hin;
    [done|].
  cbn [foldl fst snd]. csimpl in Hk.
  apply not_elem_of_cons in Hk as [Hne Hk].
  apply IH; [done|]. by apply odict_setitem_other.
Qed.

Lemma NoDup_keys_functional {V} (d : list (string * V)) k v v' :
  NoDup d.*1 → (k, v) ∈ d → (k, v') ∈ d → v = v'.
Proof.
  induction d as [|[k0 v0] d IH]; csimpl; intros Hnd H1 H2;
    [by apply elem_of_nil in H1|].
  apply NoDup_cons in Hnd as [Hk0 Hnd].
  apply elem_of_cons in H1 as [H1|H1]; apply elem_of_cons in H2 as [H2|H2].
  - congruence.
  - injection H1 as -> ->. destruct Hk0.
    apply list_elem_of_fmap. by exists (k0, v').
  - injection H2 as -> ->. destruct Hk0.
    apply list_elem_of_fmap. by exists (k0, v).
  - by apply IH.
Qed.

(** X14. The dict of results (line 146) holds, for every name, the value
    of the last pair with that name: when two sheets end up with the same
    output name, the data written under it is that of the sheet processed
    later, and the data of the earlier one is not in the dict under that
    name. *)
Theorem dict_last_value_wins {V}
    (before after : list (string * V)) (k : string) (v : V) :
  k ∉ after.*1 →
  (k, v) ∈ odict_of_pairs (before ++ (k, v) :: after)
  ∧ ∀ v', (k, v') ∈ odict_of_pairs (before ++ (k, v) :: after) → v' = v.
Proof.
  intros Hk.
  assert (Hin : (k, v) ∈ odict_of_pairs (before ++ (k, v) :: after)).
  { unfold odict_of_pairs. rewrite foldl_app. cbn [foldl fst snd].
    apply odict_fold_keeps; [done|]. apply odict_setitem_same. }
  split; [exact Hin|].
  intros v' Hin'.
  apply (NoDup_keys_functional (odict_of_pairs (before ++ (k, v) :: after)) k);
    [|done|done].
  apply (odict_fold_keys _ []). constructor.
Qed.

Lemma dict_last_value_wins_witness :
  ("Data", df_fr)
    ∈ odict_of_pairs ([("Data", df_ascii); ("Notes", df_notes)]
                      ++ ("Data", df_fr) :: [("Other", df_cafe)])
  ∧ ∀ v', ("Data", v')
            ∈ odict_of_pairs ([("Data", df_ascii); ("Notes", df_notes)]
                              ++ ("Data", df_fr) :: [("Other", df_cafe)])
          → v' = df_fr.
Proof.
  apply (dict_last_value_wins [("Data", df_ascii); ("Notes", df_notes)]
           [("Other", df_cafe)] "Data" df_fr).
  intros H%list_elem_of_singleton. discriminate.
Defined.

(** X15. The workbook written never holds two sheets of the same name:
    its sheet names are pairwise distinct, they are exactly the names that
    [translate_excel] paired with the sheets at line 141, and it has at
    most as many sheets as were loaded. *)
Theorem output_sheet_names_distinct
    (service : string → string → string → exn + gmap string string)
    (sched : scheduler) (st : state) (p : string) (wb : workbook) :
  _file_path st = Some p →
  fs st !! p = Some (Workbook wb) →
  ∃ args st1 out st',
    translate_names service sched wb st = (inr args, st1)
    ∧ translate_excel service sched st = (inr tt, st')
    ∧ fs st' !! ("translated_" +:+ p) = Some (Workbook out)
    ∧ NoDup out.*1
    ∧ (∀ k, k ∈ out.*1 ↔ k ∈ args.*1)
    ∧ (length out ≤ length wb)%nat.
Proof.
  intros Hp Hwb.
  destruct (translate_names_run service sched wb st)
    as (st1 & Hnames & _ & Hlook & _).
  destruct (translate_excel_run service sched st p wb Hp Hwb)
    as (st2 & Hrun & _ & _).
  eexists _, st1, _, _. split; [exact Hnames|]. split; [exact Hrun|].
  split; [apply lookup_insert_eq|].
  destruct (odict_fold_keys (expected_results service st wb) [])
    as (Hnd & Hin & Hlen); [constructor|].
  split; [exact Hnd|]. split.
  - intros k. unfold odict_of_pairs. rewrite Hin, elem_of_nil.
    assert ((expected_results service st wb).*1
            = ((λ kv : string * DataFrame,
                  (default kv.1 (cache st1 !! kv.1), kv.2)) <$> wb).*1) as ->.
    { unfold expected_results. rewrite <- !list_fmap_compose.
      apply Forall_fmap_ext_1, Forall_forall. intros [k' df] Hk'. simpl.
      rewrite Hlook; [done|]. apply list_elem_of_fmap. by exists (k', df). }
    tauto.
  - etrans; [exact Hlen|]. unfold expected_results.
    rewrite length_fmap. simpl. lia.
Qed.

Lemma output_sheet_names_distinct_witness :
  ∃ out st',
    translate_excel svc_data fifo (st_book files_three) = (inr tt, st')
    ∧ fs st' !! "translated_book.xlsx" = Some (Workbook out)
    ∧ NoDup out.*1
    ∧ (length out ≤ 3)%nat.
Proof.
  destruct (output_sheet_names_distinct svc_data fifo (st_book files_three)
              "book.xlsx"
              [("Data", df_ascii); ("Notes", df_notes); ("Données", df_fr)])
    as (args & st1 & out & st' & _ & Hrun & Hfs & Hnd & _ & Hlen).
  - reflexivity.
  - vm_compute. reflexivity.
  - exists out, st'. split; [exact Hrun|]. split; [exact Hfs|].
    split; [exact Hnd | exact Hlen].
Defined.

(** *** What a run sends and what it adds to the cache *)

Lemma tracked_refl T st : tracked T st st.
Proof.
  exists []. rewrite app_nil_r. split; [done|]. split; [constructor|].
  intros k Hk. by left.
Qed.

Lemma tracked_add_log T st s r : tracked T st s → tracked T st (add_log r s).
Proof. intros (sent & ? & ? & ?). by exists sent. Qed.

Lemma tracked_dispatched service T st s l :
  tracked T st s →
  (∀ k, k ∈ l → k ∈ T) →
  tracked T st (dispatched service l s).
Proof.
  intros (sent & Hcalls & Hsent & Hcache) Hl.
  destruct (dispatched_frame service l s) as (_ & _ & _ & _ & Hc).
  exists (sent ++ l). split; [by rewrite Hc, Hcalls, app_assoc|].
  split.
  - apply Forall_app. split; [done|]. by apply Forall_forall.
  - intros k. rewrite dispatched_cache, elem_of_app.
    case_decide as Hin; [auto|].
    intros Hk. destruct (Hcache k Hk); auto.
Qed.

Lemma elem_of_workbook_texts (wb : workbook) k :
  k ∈ workbook_texts wb
  ↔ isascii k = false
    ∧ (k ∈ wb.*1
       ∨ ∃ sheet, sheet ∈ wb
                  ∧ (k ∈ columns sheet.2
                     ∨ ∃ row, row ∈ values sheet.2 ∧ Str k ∈ row)).
Proof.
  unfold workbook_texts.
  rewrite elem_of_union, elem_of_list_to_set, list_elem_of_filter,
    elem_of_union_list.
  split.
  - intros [[? ?]|(X & HX & Hk)]; [auto|].
    apply list_elem_of_fmap in HX as (df & -> & Hdf).
    apply list_elem_of_fmap in Hdf as ([name df'] & -> & Hsheet).
    apply elem_of_flagged_items in Hk as [Hasc Hk].
    split; [done|]. right. by exists (name, df').
  - intros [Hasc [Hk|([name df] & Hsheet & Hk)]]; [by left|right].
    exists (flagged_items df). split.
    + apply list_elem_of_fmap. exists df. split; [done|].
      apply list_elem_of_fmap. by exists (name, df).
    + apply elem_of_flagged_items. auto.
Qed.

Lemma map_M_fun_in {A B} (f : A → M B) (g : A → B) (I : state → Prop)
    (l : list A) :
  (∀ a st, a ∈ l → I st → ∃ st', f a st = (inr (g a), st') ∧ I st') →
  ∀ st, I st → ∃ st', map_M f l st = (inr (g <$> l), st') ∧ I st'.
Proof.
  induction l as [|a l IH]; intros Hf st HI.
  - by exists st.
  - destruct (Hf a st) as (st1 & Hrun & HI1); [constructor|done|].
    destruct (IH (λ a' s Ha', Hf a' s (list_elem_of_further _ _ _ Ha')) st1 HI1)
      as (st2 & Hrun2 & HI2).
    exists st2. split; [|done].
    cbn [map_M]. unfold mbind, M_bind, bind.
    by rewrite Hrun, Hrun2.
Qed.

Lemma translate_names_tracked service (sched : scheduler) (T : gset string)
    (wb : workbook) st :
  (∀ k, k ∈ wb.*1 → isascii k = false → k ∈ T) →
  ∃ args st1,
    translate_names service sched wb st = (inr args, st1)
    ∧ tracked T st st1.
Proof.
  intros HT. unfold translate_names, check_cache, logger_info. run_monad.
  set (l := elements _).
  assert (Hl : ∀ k, k ∈ l → k ∈ T).
  { intros k. unfold l.
    rewrite elem_of_elements, elem_of_difference, elem_of_list_to_set,
      list_elem_of_filter.
    intros [[? ?] _]. by apply HT. }
  destruct (bool_decide (0 < length l)).
  - rewrite translate_async_run. simpl. eexists _, _. split; [done|].
    apply tracked_dispatched; [apply tracked_add_log, tracked_refl|].
    intros k Hk. apply Hl. by rewrite <- (run_order_perm sched l).
  - eexists _, _. split; [done|]. apply tracked_refl.
Qed.

Lemma translate_excel_tracked service (sched : scheduler) st p (wb : workbook) :
  _file_path st = Some p →
  fs st !! p = Some (Workbook wb) →
  ∃ st2,
    translate_excel service sched st
    = (inr tt, written p (odict_of_pairs (expected_results service st wb)) st2)
    ∧ evolves service st st2
    ∧ tracked (workbook_texts wb) st st2.
Proof.
  intros Hp Hwb.
  destruct (translate_names_run service sched wb st)
    as (st1 & Hnames & Hev1 & Hlook & _).
  destruct (translate_names_tracked service sched (workbook_texts wb) wb st)
    as (args' & st1' & Hnames' & Htr1).
  { intros k Hk Hasc. apply elem_of_workbook_texts. auto. }
  rewrite Hnames in Hnames'. apply (f_equal snd) in Hnames'.
  cbn [snd] in Hnames'. subst st1'.
  destruct (map_M_fun_in
              (λ a, translate_DataFrame service sched a.1 a.2)
              (λ a, (a.1, sheet_out (final_lookup service st) a.2))
              (λ s, evolves service st s ∧ tracked (workbook_texts wb) st s)
              ((λ kv : string * DataFrame,
                  (default kv.1 (cache st1 !! kv.1), kv.2)) <$> wb))
    with (st := add_log (INFO, "Creating child process...") st1)
    as (st2 & Hpool & Hev2 & Htr2).
  { intros a s Ha [Hev Htr].
    destruct (translate_DataFrame_evolves service sched st s a.1 a.2 Hev)
      as (s' & Hrun & Hev' & _).
    exists s'. split; [done|]. split; [done|].
    rewrite translate_DataFrame_run in Hrun. apply (f_equal snd) in Hrun.
    cbn [snd] in Hrun. rewrite <- Hrun.
    apply tracked_dispatched; [done|].
    intros k [Hk _]%elem_of_pending.
    apply list_elem_of_fmap in Ha as ([name df] & -> & Hsheet).
    simpl in Hk. apply elem_of_workbook_texts.
    apply elem_of_flagged_items in Hk as [Hasc Hk].
    split; [done|]. right. by exists (name, df). }
  { split; [by apply evolves_add_log | by apply tracked_add_log]. }
  assert (Hres : (λ a : string * DataFrame,
                    (a.1, sheet_out (final_lookup service st) a.2)) <$>
                 ((λ kv, (default kv.1 (cache st1 !! kv.1), kv.2)) <$> wb)
                 = expected_results service st wb).
  { unfold expected_results. rewrite <- list_fmap_compose.
    apply Forall_fmap_ext_1, Forall_forall. intros [k df] Hk. simpl.
    rewrite Hlook; [done|].
    apply list_elem_of_fmap. by exists (k, df). }
  rewrite Hres in Hpool.
  exists st2. split; [|done].
  unfold translate_excel, open_excel, file_path_getter, logger_info,
    ExcelWriter. run_monad.
  rewrite Hp, Hwb, Hnames. simpl. rewrite Hpool.
  by rewrite (ev_file_path _ _ _ Hev2), Hp.
Qed.

(** X16. Everything [translate_excel] sends to the service is a text of
    the workbook that contains a non-ASCII character: a sheet name, a
    header or a string cell of one of its sheets.  And every key the cache
    gains during the run is one of the texts sent. *)
Theorem sent_texts_from_workbook
    (service : string → string → string → exn + gmap string string)
    (sched : scheduler) (st : state) (p : string) (wb : workbook) :
  _file_path st = Some p →
  fs st !! p = Some (Workbook wb) →
  ∃ st' sent,
    translate_excel service sched st = (inr tt, st')
    ∧ calls st' = (calls st ++ sent)
    ∧ (∀ k, k ∈ sent →
         isascii k = false
         ∧ (k ∈ wb.*1
            ∨ ∃ sheet, sheet ∈ wb
                       ∧ (k ∈ columns sheet.2
                          ∨ ∃ row, row ∈ values sheet.2 ∧ Str k ∈ row)))
    ∧ (∀ k, is_Some (cache st' !! k) → is_Some (cache st !! k) ∨ k ∈ sent).
Proof.
  intros Hp Hwb.
  destruct (translate_excel_tracked service sched st p wb Hp Hwb)
    as (st2 & Hrun & _ & sent & Hcalls & Hsent & Hcache).
  eexists _, sent. split; [exact Hrun|].
  split; [exact Hcalls|]. split; [|exact Hcache].
  intros k Hk. apply elem_of_workbook_texts.
  by apply (proj1 (Forall_forall _ _) Hsent).
Qed.

Lemma sent_texts_from_workbook_witness :
  ∃ st' sent,
    translate_excel svc_cafe lifo (st_book files_book) = (inr tt, st')
    ∧ calls st' = ([] ++ sent)
    ∧ (∀ k, k ∈ sent → isascii k = false)
    ∧ (∀ k, is_Some (cache st' !! k) → k ∈ sent).
Proof.
  destruct (sent_texts_from_workbook svc_cafe lifo (st_book files_book)
              "book.xlsx" [("日本語", df_menu); ("Sheet2", df_cafe)])
    as (st' & sent & Hrun & Hcalls & Hsent & Hcache).
  - reflexivity.
  - vm_compute. reflexivity.
  - exists st', sent. split; [exact Hrun|]. split; [exact Hcalls|].
    split.
    + intros k Hk. by destruct (Hsent k Hk).
    + intros k Hk. destruct (Hcache k Hk) as [[v Hv]|Hin]; [|exact Hin].
      simpl in Hv. by rewrite lookup_empty in Hv.
Defined.

(** *** The frames handed to the writer *)

(** [translate_excel] is [frames_for_writer] followed by the writing of
    its result under the prefixed path. *)
Lemma translate_excel_factors service (sched : scheduler) st :
  translate_excel service sched st
  = (frames ← frames_for_writer service sched;
     path ← file_path_getter;
     ExcelWriter ("translated_" +:+ path) frames;;
     logger_info "Excel file has been translated!") st.
Proof.
  unfold translate_excel, frames_for_writer, logger_info.
  unfold mbind, M_bind, bind, mret, M_ret, ret, modify.
  destruct (open_excel st) as [[e|dfs] s0]; [done|].
  destruct (translate_names service sched dfs s0) as [[e|args] s1]; [done|].
  by destruct (map_M _ args _) as [[e|results] s2].
Qed.

Lemma frames_for_writer_run service (sched : scheduler) st p (wb : workbook) :
  _file_path st = Some p →
  fs st !! p = Some (Workbook wb) →
  ∃ st2,
    frames_for_writer service sched st
    = (inr (odict_of_pairs (expected_results service st wb)), st2)
    ∧ evolves service st st2
    ∧ tracked (workbook_texts wb) st st2.
Proof.
  intros Hp Hwb.
  destruct (translate_names_run service sched wb st)
    as (st1 & Hnames & Hev1 & Hlook & _).
  destruct (translate_names_tracked service sched (workbook_texts wb) wb st)
    as (args' & st1' & Hnames' & Htr1).
  { intros k Hk Hasc. apply elem_of_workbook_texts. auto. }
  rewrite Hnames in Hnames'. apply (f_equal snd) in Hnames'.
  cbn [snd] in Hnames'. subst st1'.
  destruct (map_M_fun_in
              (λ a, translate_DataFrame service sched a.1 a.2)
              (λ a, (a.1, sheet_out (final_lookup service st) a.2))
              (λ s, evolves service st s ∧ tracked (workbook_texts wb) st s)
              ((λ kv : string * DataFrame,
                  (default kv.1 (cache st1 !! kv.1), kv.2)) <$> wb))
    with (st := add_log (INFO, "Creating child process...") st1)
    as (st2 & Hpool & Hev2 & Htr2).
  { intros a s Ha [Hev Htr].
    destruct (translate_DataFrame_evolves service sched st s a.1 a.2 Hev)
      as (s' & Hrun & Hev' & _).
    exists s'. split; [done|]. split; [done|].
    rewrite translate_DataFrame_run in Hrun. apply (f_equal snd) in Hrun.
    cbn [snd] in Hrun. rewrite <- Hrun.
    apply tracked_dispatched; [done|].
    intros k [Hk _]%elem_of_pending.
    apply list_elem_of_fmap in Ha as ([name df] & -> & Hsheet).
    simpl in Hk. apply elem_of_workbook_texts.
    apply elem_of_flagged_items in Hk as [Hasc Hk].
    split; [done|]. right. by exists (name, df). }
  { split; [by apply evolves_add_log | by apply tracked_add_log]. }
  assert (Hres : (λ a : string * DataFrame,
                    (a.1, sheet_out (final_lookup service st) a.2)) <$>
                 ((λ kv, (default kv.1 (cache st1 !! kv.1), kv.2)) <$> wb)
                 = expected_results service st wb).
  { unfold expected_results. rewrite <- list_fmap_compose.
    apply Forall_fmap_ext_1, Forall_forall. intros [k df] Hk. simpl.
    rewrite Hlook; [done|].
    apply list_elem_of_fmap. by exists (k, df). }
  rewrite Hres in Hpool.
  exists st2. split; [|done].
  unfold frames_for_writer, open_excel, file_path_getter, logger_info.
  run_monad.
  rewrite Hp, Hwb, Hnames. simpl. by rewrite Hpool.
Qed.

Lemma sheet_out_id look df :
  (∀ k, isascii k = true → look k = None) →
  Forall (λ h, isascii h = true) (columns df) →
  Forall (Forall (λ x, flagged x = false)) (values df) →
  sheet_out look df = df.
Proof.
  intros Hlook Hcols Hvals. destruct df as [cols vals]. unfold sheet_out.
  cbn [columns values] in *. f_equal.
  - rewrite <- (list_fmap_id cols) at 2.
    apply Forall_fmap_ext_1. eapply Forall_impl; [exact Hcols|].
    intros h Hh. simpl. by rewrite Hlook.
  - unfold grid_map. rewrite <- (list_fmap_id vals) at 2.
    apply Forall_fmap_ext_1. eapply Forall_impl; [exact Hvals|].
    intros row Hrow. simpl. rewrite <- (list_fmap_id row) at 2.
    apply Forall_fmap_ext_1. eapply Forall_impl; [exact Hrow|].
    intros x Hx. unfold cell_out. by rewrite Hx.
Qed.

(** X17. For a workbook without any non-ASCII text (sheet names and
    headers ASCII, no non-ASCII string cell) and a cache that holds no
    ASCII key, the frames [translate_excel] hands to the writer are the
    loaded sheets themselves, in the same order; no request is made and
    the cache is left as it was. *)
Theorem ascii_workbook_frames_unchanged
    (service : string → string → string → exn + gmap string string)
    (sched : scheduler) (st : state) (p : string) (wb : workbook) :
  _file_path st = Some p →
  fs st !! p = Some (Workbook wb) →
  keys_nonascii (cache st) →
  NoDup wb.*1 →
  Forall (λ sheet : string * DataFrame,
            isascii sheet.1 = true
            ∧ Forall (λ h, isascii h = true) (columns sheet.2)
            ∧ Forall (Forall (λ x, flagged x = false)) (values sheet.2)) wb →
  ∃ st2,
    frames_for_writer service sched st = (inr wb, st2)
    ∧ calls st2 = calls st
    ∧ cache st2 = cache st.
Proof.
  intros Hp Hwb Hkeys Hnd Hascii.
  destruct (frames_for_writer_run service sched st p wb Hp Hwb)
    as (st2 & Hrun & Hev & sent & Hcalls & Hsent & Hcache).
  assert (Hnone : sent = []).
  { destruct sent as [|k sent]; [done|]. exfalso.
    apply Forall_cons in Hsent as [Hk _].
    apply elem_of_workbook_texts in Hk as [Hasc [Hk|(sheet & Hsheet & Hk)]].
    - apply list_elem_of_fmap in Hk as (sheet & -> & Hsheet).
      destruct (proj1 (Forall_forall _ _) Hascii sheet Hsheet) as [? _].
      congruence.
    - destruct (proj1 (Forall_forall _ _) Hascii sheet Hsheet)
        as (_ & Hcols & Hvals).
      destruct Hk as [Hk|(row & Hrow & Hk)].
      + pose proof (proj1 (Forall_forall _ _) Hcols k Hk). congruence.
      + pose proof (proj1 (Forall_forall _ _) Hvals row Hrow) as Hr.
        pose proof (proj1 (Forall_forall _ _) Hr _ Hk) as Hf.
        simpl in Hf. rewrite Hasc in Hf. discriminate. }
  subst sent. rewrite app_nil_r in Hcalls.
  assert (Hsame : expected_results service st wb = wb).
  { unfold expected_results. rewrite <- (list_fmap_id wb) at 2.
    apply Forall_fmap_ext_1. eapply Forall_impl; [exact Hascii|].
    intros [k df] (Hk & Hcols & Hvals). cbn [fst snd] in *.
    rewrite final_lookup_ascii by done. simpl. f_equal.
    apply sheet_out_id; [|done|done].
    intros k' Hk'. by apply final_lookup_ascii. }
  rewrite Hsame, odict_of_pairs_NoDup in Hrun by done.
  exists st2. split; [exact Hrun|]. split; [exact Hcalls|].
  apply map_eq. intros k.
  destruct (cache st !! k) as [v|] eqn:Hk.
  - apply (lookup_weaken _ _ _ _ Hk (ev_cache _ _ _ Hev)).
  - destruct (cache st2 !! k) as [v|] eqn:Hk2; [|done].
    destruct (Hcache k) as [[v' Hv']|Hin]; [by eexists|congruence|].
    by apply elem_of_nil in Hin.
Qed.

Lemma ascii_workbook_frames_unchanged_witness :
  ∃ st2,
    frames_for_writer svc_down fifo (st_book files_ascii)
    = (inr [("Data", df_ascii); ("Notes", df_notes)], st2)
    ∧ calls st2 = []
    ∧ cache st2 = ∅.
Proof.
  apply (ascii_workbook_frames_unchanged svc_down fifo (st_book files_ascii)
           "book.xlsx" [("Data", df_ascii); ("Notes", df_notes)]).
  - reflexivity.
  - vm_compute. reflexivity.
  - intros k [v Hk]. simpl in Hk. by rewrite lookup_empty in Hk.
  - apply (bool_decide_unpack _). vm_compute. exact I.
  - repeat constructor.
Defined.

(** *** The cache after a run *)

(** A key that agrees with [final_lookup] keeps doing so while the cache
    grows within the pipeline. *)
Lemma final_lookup_carried service st s s' k :
  evolves service st s' →
  cache s ⊆ cache s' →
  cache s !! k = final_lookup service st k →
  cache s' !! k = final_lookup service st k.
Proof.
  intros Hev Hsub Hk.
  destruct (cache s !! k) as [v|] eqn:Hs.
  - rewrite <- Hk. by apply (lookup_weaken _ _ _ _ Hs Hsub).
  - destruct (cache s' !! k) as [v|] eqn:Hs'; [|done].
    apply (ev_new _ _ _ Hev) in Hs'. congruence.
Qed.

Lemma pool_settles service (sched : scheduler) st
    (l : list (string * DataFrame)) :
  ∀ (S : string → Prop) s,
    evolves service st s →
    (∀ k, S k → cache s !! k = final_lookup service st k) →
    ∃ s',
      map_M (λ a, translate_DataFrame service sched a.1 a.2) l s
      = (inr ((λ a : string * DataFrame,
                 (a.1, sheet_out (final_lookup service st) a.2)) <$> l), s')
      ∧ evolves service st s'
      ∧ ∀ k, S k ∨ (∃ a, a ∈ l ∧ k ∈ flagged_items a.2) →
             cache s' !! k = final_lookup service st k.
Proof.
  induction l as [|a l IH]; intros S s Hev HS.
  - exists s. split; [done|]. split; [done|].
    intros k [Hk|(a & Ha & _)]; [by apply HS|by apply elem_of_nil in Ha].
  - destruct (translate_DataFrame_evolves service sched st s a.1 a.2 Hev)
      as (s1 & Hrun & Hev1 & _).
    destruct (translate_DataFrame_evolves service sched s s a.1 a.2
                (evolves_refl service s)) as (s1' & Hrun' & Hstep & _).
    pose proof Hrun as Hs1. rewrite translate_DataFrame_run in Hs1.
    apply (f_equal snd) in Hs1. cbn [snd] in Hs1.
    rewrite translate_DataFrame_run in Hrun'.
    apply (f_equal snd) in Hrun'. cbn [snd] in Hrun'.
    rewrite Hs1 in Hrun'. subst s1'.
    destruct (IH (λ k, S k ∨ k ∈ flagged_items a.2) s1 Hev1)
      as (s2 & Hrun2 & Hev2 & Hall).
    { intros k [Hk|Hk].
      - apply (final_lookup_carried service st s); auto.
        apply (ev_cache _ _ _ Hstep).
      - rewrite <- Hs1.
        apply (dispatched_final_lookup service st s (flagged_items a.2));
          auto.
        + intros k'. apply elem_of_pending.
        + intros k'. apply flagged_items_nonascii. }
    exists s2. split; [|split; [done|]].
    + cbn [map_M]. unfold mbind, M_bind, bind.
      by rewrite Hrun, Hrun2.
    + intros k [Hk|(a' & [->|Ha']%elem_of_cons & Hk)]; apply Hall; eauto.
Qed.

Lemma translate_excel_settles service (sched : scheduler) st p (wb : workbook) :
  _file_path st = Some p →
  fs st !! p = Some (Workbook wb) →
  ∃ st2,
    translate_excel service sched st
    = (inr tt, written p (odict_of_pairs (expected_results service st wb)) st2)
    ∧ ∀ k, k ∈ workbook_texts wb → cache st2 !! k = final_lookup service st k.
Proof.
  intros Hp Hwb.
  destruct (translate_names_run service sched wb st)
    as (st1 & Hnames & Hev1 & Hlook & _).
  destruct (pool_settles service sched st
              ((λ kv : string * DataFrame,
                  (default kv.1 (cache st1 !! kv.1), kv.2)) <$> wb)
              (λ k, k ∈ wb.*1)
              (add_log (INFO, "Creating child process...") st1))
    as (st2 & Hpool & Hev2 & Hall).
  { by apply evolves_add_log. }
  { intros k Hk. by apply Hlook. }
  assert (Hres : (λ a : string * DataFrame,
                    (a.1, sheet_out (final_lookup service st) a.2)) <$>
                 ((λ kv, (default kv.1 (cache st1 !! kv.1), kv.2)) <$> wb)
                 = expected_results service st wb).
  { unfold expected_results. rewrite <- list_fmap_compose.
    apply Forall_fmap_ext_1, Forall_forall. intros [k df] Hk. simpl.
    rewrite Hlook; [done|].
    apply list_elem_of_fmap. by exists (k, df). }
  rewrite Hres in Hpool.
  exists st2. split.
  - unfold translate_excel, open_excel, file_path_getter, logger_info,
      ExcelWriter. run_monad.
    rewrite Hp, Hwb, Hnames. simpl. rewrite Hpool.
    by rewrite (ev_file_path _ _ _ Hev2), Hp.
  - intros k [Hasc [Hk|([name df] & Hsheet & Hk)]]%elem_of_workbook_texts;
      apply Hall; [by left|right].
    exists (default name (cache st1 !! name), df). split.
    + apply list_elem_of_fmap. by exists (name, df).
    + apply elem_of_flagged_items. auto.
Qed.

(** X18. After [translate_excel], a non-ASCII text of the workbook (sheet
    name, header or string cell) is missing from the cache exactly when it
    was missing before the run and its request failed; every text the
    service translated, and every text that was cached, is a key. *)
Theorem workbook_text_missing_iff_failed
    (service : string → string → string → exn + gmap string string)
    (sched : scheduler) (st : state) (p : string) (wb : workbook) :
  _file_path st = Some p →
  fs st !! p = Some (Workbook wb) →
  ∃ st',
    translate_excel service sched st = (inr tt, st')
    ∧ ∀ k,
        isascii k = false →
        k ∈ wb.*1
        ∨ (∃ sheet, sheet ∈ wb
                    ∧ (k ∈ columns sheet.2
                       ∨ ∃ row, row ∈ values sheet.2 ∧ Str k ∈ row)) →
        (cache st' !! k = None
         ↔ cache st !! k = None
           ∧ ∃ e, outcome service (src_lang st) (trgt_lang st) k = inl e).
Proof.
  intros Hp Hwb.
  destruct (translate_excel_settles service sched st p wb Hp Hwb)
    as (st2 & Hrun & Hall).
  eexists. split; [exact Hrun|].
  intros k Hasc Hk. unfold written. cbn [cache add_log set_fs].
  rewrite Hall by (apply elem_of_workbook_texts; auto).
  unfold final_lookup, tx. rewrite Hasc.
  destruct (cache st !! k) as [v|].
  - split; [done|]. by intros [? _].
  - destruct (outcome service (src_lang st) (trgt_lang st) k) as [e|t].
    + split; [eauto|done].
    + split; [done|]. by intros [_ [e ?]].
Qed.

Lemma workbook_text_missing_iff_failed_witness :
  ∃ st',
    translate_excel svc_cafe lifo (st_book files_book) = (inr tt, st')
    ∧ (cache st' !! "日本語" = None
       ↔ cache (st_book files_book) !! "日本語" = None
         ∧ ∃ e, outcome svc_cafe "fr" "en" "日本語" = inl e).
Proof.
  destruct (workbook_text_missing_iff_failed svc_cafe lifo (st_book files_book)
              "book.xlsx" [("日本語", df_menu); ("Sheet2", df_cafe)])
    as (st' & Hrun & Hall).
  - reflexivity.
  - vm_compute. reflexivity.
  - exists st'. split; [exact Hrun|].
    apply (Hall "日本語"); [reflexivity|]. left. constructor.
Defined.

(** X19. With a service that translates every request, and output sheet
    names that are pairwise distinct, the frames [translate_excel] hands
    to the writer are the loaded sheets translated throughout: position by
    position, every non-ASCII sheet name, header and string cell is
    replaced by its translation (the cached one if the text was cached,
    else the one the service gives), and no such cell is lost to a missing
    value. *)
Theorem workbook_frames_fully_translated
    (service : string → string → string → exn + gmap string string)
    (sched : scheduler) (tr : string → string → string → string)
    (st : state) (p : string) (wb : workbook) :
  succeeds_with service tr →
  _file_path st = Some p →
  fs st !! p = Some (Workbook wb) →
  NoDup ((λ sheet : string * DataFrame,
            default sheet.1 (final_lookup service st sheet.1)) <$> wb) →
  ∃ frames st2,
    frames_for_writer service sched st = (inr frames, st2)
    ∧ Forall2
        (λ sheet o : string * DataFrame,
           (isascii sheet.1 = false →
            o.1 = default (tr sheet.1 (src_lang st) (trgt_lang st))
                          (cache st !! sheet.1))
           ∧ (∀ i h, columns sheet.2 !! i = Some h → isascii h = false →
                     columns o.2 !! i
                     = Some (default (tr h (src_lang st) (trgt_lang st))
                                     (cache st !! h)))
           ∧ (∀ i j s, cell_at (values sheet.2) i j = Some (Str s) →
                       isascii s = false →
                       cell_at (values o.2) i j
                       = Some (Str (default (tr s (src_lang st) (trgt_lang st))
                                            (cache st !! s)))))
        wb frames.
Proof.
  intros Hok Hp Hwb Hnd.
  destruct (frames_for_writer_run service sched st p wb Hp Hwb)
    as (st2 & Hrun & _ & _).
  assert (Hlook : ∀ k, isascii k = false →
            final_lookup service st k
            = Some (default (tr k (src_lang st) (trgt_lang st))
                            (cache st !! k))).
  { intros k Hk. rewrite (final_lookup_succeeds service tr) by done.
    rewrite Hk. by destruct (cache st !! k). }
  eexists _, _. split; [exact Hrun|].
  rewrite odict_of_pairs_NoDup.
  - unfold expected_results.
    apply Forall2_fmap_r, Forall_Forall2_diag, Forall_forall.
    intros [k df] _. unfold compose. cbn [fst snd]. split; [|split].
    + intros Hk. by rewrite Hlook.
    + intros i h Hh Hasc. rewrite columns_sheet_out, Hh. simpl.
      by rewrite Hlook.
    + intros i j s Hs Hasc. rewrite cell_at_sheet_out, Hs. simpl.
      unfold cell_out. simpl. by rewrite Hasc, Hlook.
  - unfold expected_results. by rewrite <- list_fmap_compose.
Qed.

Lemma workbook_frames_fully_translated_witness :
  ∃ first rest st2,
    frames_for_writer svc_plain lifo (st_book files_book)
    = (inr (first :: rest), st2)
    ∧ first.1 = "en 日本語"
    ∧ columns first.2 !! 0 = Some "en né"
    ∧ cell_at (values first.2) 0 0 = Some (Str "en café").
Proof.
  destruct (workbook_frames_fully_translated svc_plain lifo tr_plain
              (st_book files_book)
              "book.xlsx" [("日本語", df_menu); ("Sheet2", df_cafe)])
    as (frames & st2 & Hrun & Hall).
  - intros text src trgt. eexists. split; [reflexivity|].
    apply lookup_singleton_eq.
  - reflexivity.
  - vm_compute. reflexivity.
  - apply (bool_decide_unpack _). vm_compute. exact I.
  - apply Forall2_cons_inv_l in Hall
      as (first & rest & (Hname & Hcols & Hcells) & _ & ->).
    exists first, rest, st2. split; [exact Hrun|].
    split; [exact (Hname eq_refl)|]. split.
    + exact (Hcols 0 "né" eq_refl eq_refl).
    + exact (Hcells 0 0 "café" eq_refl eq_refl).
Defined.

(** X20. Texts without a non-ASCII character are left alone by
    [translate_excel]: every text it sends to the service contains a
    non-ASCII character; in the frames handed to the writer every cell
    that is not a non-ASCII string is unchanged; and when the cache holds
    no ASCII key at the start (as in every state the pipeline reaches),
    every ASCII header and every ASCII sheet name is unchanged.  The dict
    of these frames keeps them all whenever their names are pairwise
    distinct. *)
Theorem ascii_texts_untouched
    (service : string → string → string → exn + gmap string string)
    (sched : scheduler) (st : state) (p : string) (wb : workbook) :
  _file_path st = Some p →
  fs st !! p = Some (Workbook wb) →
  ∃ results st2 sent,
    frames_for_writer service sched st = (inr (odict_of_pairs results), st2)
    ∧ calls st2 = (calls st ++ sent)
    ∧ Forall (λ item, isascii item = false) sent
    ∧ (NoDup results.*1 → odict_of_pairs results = results)
    ∧ Forall2
        (λ sheet result : string * DataFrame,
           (∀ i j x, cell_at (values sheet.2) i j = Some x →
                     flagged x = false →
                     cell_at (values result.2) i j = Some x)
           ∧ (keys_nonascii (cache st) →
              (isascii sheet.1 = true → result.1 = sheet.1)
              ∧ ∀ i h, columns sheet.2 !! i = Some h → isascii h = true →
                       columns result.2 !! i = Some h))
        wb results.
Proof.
  intros Hp Hwb.
  destruct (frames_for_writer_run service sched st p wb Hp Hwb)
    as (st2 & Hrun & Hev & _).
  destruct (ev_calls _ _ _ Hev) as (sent & Hcalls & Hsent).
  exists (expected_results service st wb), st2, sent.
  split; [exact Hrun|]. split; [exact Hcalls|]. split; [exact Hsent|].
  split; [apply odict_of_pairs_NoDup|].
  unfold expected_results. apply Forall2_fmap_r, Forall_Forall2_diag,
    Forall_forall.
  intros [k df] _. unfold compose. cbn [fst snd]. split.
  - intros i j x Hx Hflag. rewrite cell_at_sheet_out, Hx. simpl.
    unfold cell_out. by rewrite Hflag.
  - intros Hkeys. split.
    + intros Hk. by rewrite final_lookup_ascii.
    + intros i h Hh Hasc. rewrite columns_sheet_out, Hh. simpl.
      by rewrite final_lookup_ascii.
Qed.

Lemma ascii_texts_untouched_witness :
  ∃ first second st2 sent,
    frames_for_writer svc_cafe lifo (st_book files_book)
    = (inr (odict_of_pairs [first; second]), st2)
    ∧ calls st2 = ([] ++ sent)
    ∧ Forall (λ item, isascii item = false) sent
    ∧ cell_at (values first.2) 1 0 = Some (Str "tea")
    ∧ cell_at (values first.2) 0 1 = Some (Num 3)
    ∧ columns first.2 !! 1 = Some "price"
    ∧ second.1 = "Sheet2".
Proof.
  destruct (ascii_texts_untouched svc_cafe lifo (st_book files_book)
              "book.xlsx" [("日本語", df_menu); ("Sheet2", df_cafe)])
    as (results & st2 & sent & Hrun & Hcalls & Hsent & _ & Hall).
  - reflexivity.
  - vm_compute. reflexivity.
  - assert (Hkeys : keys_nonascii (cache (st_book files_book))).
    { intros k [v Hk]. simpl in Hk. by rewrite lookup_empty in Hk. }
    apply Forall2_cons_inv_l in Hall
      as (first & rest & (Hcells & Hnames) & Hrest & ->).
    apply Forall2_cons_inv_l in Hrest
      as (second & rest' & (_ & Hnames') & Hnil & ->).
    apply Forall2_nil_inv_l in Hnil as ->.
    destruct (Hnames Hkeys) as [_ Hcols].
    destruct (Hnames' Hkeys) as [Hname _].
    exists first, second, st2, sent.
    split; [exact Hrun|]. split; [exact Hcalls|]. split; [exact Hsent|].
    split; [exact (Hcells 1 0 (Str "tea") eq_refl eq_refl)|].
    split; [exact (Hcells 0 1 (Num 3) eq_refl eq_refl)|].
    split; [exact (Hcols 1 "price" eq_refl eq_refl)|].
    exact (Hname eq_refl).
Defined.
